(** * The pgsql repository store: query builder and store operations

    A shallow embedding of [server/internal/store/pgsql/repos.go]:
    the record mapper ([toRepo], [fromRepo]), the query builder
    ([listSQL]) and the store operations ([Get], [List], [Create],
    [Update], [Delete]), together with a model of the execution handle
    on which the statements run. *)

From Stdlib Require Import String Ascii List ZArith Lia Bool Arith.
From Stdlib Require Import DecimalString Permutation Sorted.
Import ListNotations.

Local Open Scope list_scope.
Local Open Scope string_scope.

(** ** Go standard-library helpers used by the store

    Go strings are byte sequences; they are modelled as [string]
    (sequences of [ascii] bytes).  Case mapping and the white-space
    class are those of the ASCII range, which is where Go's [strings]
    package and this model coincide; bytes above 127 are left alone. *)

Module strings.

(** [unicode.IsSpace] on the ASCII range: tab, newline, vertical tab,
    form feed, carriage return and space. *)
Definition isSpace (c : ascii) : bool :=
  let n := nat_of_ascii c in
  (((9 <=? n) && (n <=? 13)) || (n =? 32))%nat.

Definition toLowerByte (c : ascii) : ascii :=
  let n := nat_of_ascii c in
  if ((65 <=? n) && (n <=? 90))%nat then ascii_of_nat (n + 32) else c.

(** [strings.ToLower]. *)
Fixpoint ToLower (s : string) : string :=
  match s with
  | EmptyString => EmptyString
  | String c rest => String (toLowerByte c) (ToLower rest)
  end.

(** [strings.Fields]: the maximal runs of non-space bytes, in order. *)
Fixpoint Fields (s : string) : list string :=
  match s with
  | EmptyString => []
  | String c rest =>
      if isSpace c then Fields rest
      else match rest with
           | EmptyString => [String c EmptyString]
           | String c' _ =>
               if isSpace c' then String c EmptyString :: Fields rest
               else match Fields rest with
                    | [] => [String c EmptyString]
                    | w :: ws => String c w :: ws
                    end
           end
  end.

(** [strings.Join]. *)
Definition Join (elems : list string) (sep : string) : string :=
  String.concat sep elems.

(** [strings.HasPrefix]. *)
Definition HasPrefix (s pre : string) : bool := String.prefix pre s.

(** [strings.Contains]. *)
Fixpoint Contains (s substr : string) : bool :=
  HasPrefix s substr ||
  match s with
  | EmptyString => false
  | String _ rest => Contains rest substr
  end.

(** [strings.Split] for a non-empty separator.  [skip] counts the
    bytes of a separator occurrence still to be passed over. *)
Fixpoint splitFrom (skip : nat) (s sep : string) : list string :=
  match s with
  | EmptyString => [EmptyString]
  | String c rest =>
      match skip with
      | S k => splitFrom k rest sep
      | O =>
          if HasPrefix s sep
          then EmptyString :: splitFrom (String.length sep - 1) rest sep
          else match splitFrom 0 rest sep with
               | [] => [String c EmptyString]
               | w :: ws => String c w :: ws
               end
      end
  end.

Definition Split (s sep : string) : list string := splitFrom 0 s sep.

Fixpoint trimLeft (s : string) : string :=
  match s with
  | EmptyString => EmptyString
  | String c rest => if isSpace c then trimLeft rest else s
  end.

Fixpoint trimRight (s : string) : string :=
  match s with
  | EmptyString => EmptyString
  | String c rest =>
      match trimRight rest with
      | EmptyString => if isSpace c then EmptyString else String c EmptyString
      | t => String c t
      end
  end.

(** [strings.TrimSpace]. *)
Definition TrimSpace (s : string) : string := trimRight (trimLeft s).

End strings.

Module path.

Definition isSlash (c : ascii) : bool := Ascii.eqb c "/"%char.

Fixpoint stripTrailingSlashes (p : string) : string :=
  match p with
  | EmptyString => EmptyString
  | String c rest =>
      match stripTrailingSlashes rest with
      | EmptyString => if isSlash c then EmptyString else String c EmptyString
      | t => String c t
      end
  end.

(** The text after the last slash of [p], when [p] has a slash. *)
Fixpoint afterLastSlash (p : string) : option string :=
  match p with
  | EmptyString => None
  | String c rest =>
      match afterLastSlash rest with
      | Some t => Some t
      | None => if isSlash c then Some rest else None
      end
  end.

(** [path.Base]. *)
Definition Base (p : string) : string :=
  if String.eqb p "" then "."
  else
    let p1 := stripTrailingSlashes p in
    let p2 := match afterLastSlash p1 with
              | Some t => t
              | None => p1
              end in
    if String.eqb p2 "" then "/" else p2.

End path.

(** [strconv.Itoa] on naturals. *)
Definition Itoa (n : nat) : string := NilEmpty.string_of_uint (Nat.to_uint n).

(** [modl.PostgresDialect{}.BindVar]: the placeholder of the [i]-th
    argument (counted from zero) is [$] followed by [i+1]. *)
Definition BindVar (i : nat) : string := "$" ++ Itoa (i + 1).

(** ** Data model *)

(** [time.Time], as the Unix seconds and nanoseconds it denotes. *)
Module time.
Record Time := Unix { sec : Z; nsec : Z }.
(** The zero value [time.Time{}]: January 1, year 1, 00:00 UTC. *)
Definition zero : Time := Unix (-62135596800) 0.
End time.

(** [pbtypes.Timestamp] and its conversions from and to [time.Time]. *)
Module pbtypes.
Record Timestamp := { Seconds : Z; Nanos : Z }.
Definition NewTimestamp (t : time.Time) : Timestamp :=
  {| Seconds := time.sec t; Nanos := time.nsec t |}.
Definition Time (ts : Timestamp) : time.Time :=
  time.Unix (Seconds ts) (Nanos ts).
End pbtypes.

(** [sourcegraph.Repo], the domain record (the fields the store maps). *)
Module Repo.
Record t := {
  URI : string;
  Origin : string;
  Name : string;
  Description : string;
  VCS : string;
  HTTPCloneURL : string;
  SSHCloneURL : string;
  HomepageURL : string;
  DefaultBranch : string;
  Language : string;
  Blocked : bool;
  Deprecated : bool;
  Fork : bool;
  Mirror : bool;
  Private : bool;
  CreatedAt : option pbtypes.Timestamp;
  UpdatedAt : option pbtypes.Timestamp;
  PushedAt : option pbtypes.Timestamp
}.
End Repo.

(** [dbRepo], the storage row. *)
Module dbRepo.
Record t := {
  URI : string;
  Origin : string;
  Name : string;
  Description : string;
  VCS : string;
  HTTPCloneURL : string;
  SSHCloneURL : string;
  HomepageURL : string;
  DefaultBranch : string;
  Language : string;
  Blocked : bool;
  Deprecated : bool;
  Fork : bool;
  Mirror : bool;
  Private : bool;
  CreatedAt : time.Time;
  UpdatedAt : option time.Time;
  PushedAt : option time.Time
}.

(** The zero value [dbRepo{}] of [var r dbRepo]. *)
Definition zero : t :=
  {| URI := ""; Origin := ""; Name := ""; Description := ""; VCS := "";
     HTTPCloneURL := ""; SSHCloneURL := ""; HomepageURL := "";
     DefaultBranch := ""; Language := "";
     Blocked := false; Deprecated := false; Fork := false;
     Mirror := false; Private := false;
     CreatedAt := time.zero; UpdatedAt := None; PushedAt := None |}.
End dbRepo.

(** [sourcegraph.RepoListOptions] with its embedded [ListOptions]
    ([PerPage], [Page]); [Type_] is the field [Type]. *)
Module RepoListOptions.
Record t := {
  Name : string;
  Query : string;
  URIs : list string;
  Sort : string;
  Direction : string;
  NoFork : bool;
  Type_ : string;
  Owner : string;
  PerPage : Z;
  Page : Z
}.

(** The zero value [&sourcegraph.RepoListOptions{}]. *)
Definition zero : t :=
  {| Name := ""; Query := ""; URIs := []; Sort := ""; Direction := "";
     NoFork := false; Type_ := ""; Owner := ""; PerPage := 0; Page := 0 |}.
End RepoListOptions.

(** [store.RepoUpdate]: the identifier ([Repo.URI] of the embedded
    [RepoSpec]) and the optional new field values. *)
Module RepoUpdate.
Record t := {
  URI : string;
  Description : string;
  Language : string;
  UpdatedAt : option pbtypes.Timestamp;
  PushedAt : option pbtypes.Timestamp
}.
End RepoUpdate.

(** The errors the store returns: [grpc.Errorf(codes.InvalidArgument,
    msg)], the sentinel [errOptionsSpecifyEmptyResult], the values
    [store.ErrRepoMirrorOnly] and [store.ErrRepoNeedsCloneURL],
    [*store.RepoNotFoundError], and any error of the execution handle. *)
Inductive error : Type :=
| InvalidArgument (msg : string)
| errOptionsSpecifyEmptyResult
| ErrRepoMirrorOnly
| ErrRepoNeedsCloneURL
| RepoNotFoundError (repo : string)
| ExecutionFailure (msg : string).

(** A Go result pair [(value, error)]. *)
Inductive result (A : Type) : Type :=
| Ok (a : A)
| Err (e : error).
Arguments Ok {A} a.
Arguments Err {A} e.

Definition bind {A B : Type} (r : result A) (k : A -> result B) : result B :=
  match r with
  | Ok a => k a
  | Err e => Err e
  end.

Notation "x <- r ;; k" := (bind r (fun x => k))
  (at level 61, r at next level, right associativity).

(** A value bound to a placeholder ([interface{}] in the source). *)
Inductive sqlarg : Type :=
| ArgString (s : string)
| ArgInt (n : Z)
| ArgTimestamp (ts : pbtypes.Timestamp).

(** ** Record mapper *)

Definition toRepo (r : dbRepo.t) : Repo.t :=
  {| Repo.URI := dbRepo.URI r;
     Repo.Origin := dbRepo.Origin r;
     Repo.Name := dbRepo.Name r;
     Repo.Description := dbRepo.Description r;
     Repo.VCS := dbRepo.VCS r;
     Repo.HTTPCloneURL := dbRepo.HTTPCloneURL r;
     Repo.SSHCloneURL := dbRepo.SSHCloneURL r;
     Repo.HomepageURL := dbRepo.HomepageURL r;
     Repo.DefaultBranch := dbRepo.DefaultBranch r;
     Repo.Language := dbRepo.Language r;
     Repo.Blocked := dbRepo.Blocked r;
     Repo.Deprecated := dbRepo.Deprecated r;
     Repo.Fork := dbRepo.Fork r;
     Repo.Mirror := dbRepo.Mirror r;
     Repo.Private := dbRepo.Private r;
     Repo.CreatedAt := Some (pbtypes.NewTimestamp (dbRepo.CreatedAt r));
     Repo.UpdatedAt := option_map pbtypes.NewTimestamp (dbRepo.UpdatedAt r);
     Repo.PushedAt := option_map pbtypes.NewTimestamp (dbRepo.PushedAt r) |}.

(** [r.fromRepo(r2)]: every field of [r] is overwritten except the
    timestamps that [r2] leaves unset. *)
Definition fromRepo (r : dbRepo.t) (r2 : Repo.t) : dbRepo.t :=
  {| dbRepo.URI := Repo.URI r2;
     dbRepo.Origin := Repo.Origin r2;
     dbRepo.Name := Repo.Name r2;
     dbRepo.Description := Repo.Description r2;
     dbRepo.VCS := Repo.VCS r2;
     dbRepo.HTTPCloneURL := Repo.HTTPCloneURL r2;
     dbRepo.SSHCloneURL := Repo.SSHCloneURL r2;
     dbRepo.HomepageURL := Repo.HomepageURL r2;
     dbRepo.DefaultBranch := Repo.DefaultBranch r2;
     dbRepo.Language := Repo.Language r2;
     dbRepo.Blocked := Repo.Blocked r2;
     dbRepo.Deprecated := Repo.Deprecated r2;
     dbRepo.Fork := Repo.Fork r2;
     dbRepo.Mirror := Repo.Mirror r2;
     dbRepo.Private := Repo.Private r2;
     dbRepo.CreatedAt :=
       match Repo.CreatedAt r2 with
       | Some ts => pbtypes.Time ts
       | None => dbRepo.CreatedAt r
       end;
     dbRepo.UpdatedAt :=
       match Repo.UpdatedAt r2 with
       | Some ts => Some (pbtypes.Time ts)
       | None => dbRepo.UpdatedAt r
       end;
     dbRepo.PushedAt :=
       match Repo.PushedAt r2 with
       | Some ts => Some (pbtypes.Time ts)
       | None => dbRepo.PushedAt r
       end |}.

Definition toRepos (rs : list dbRepo.t) : list Repo.t := map toRepo rs.

(** ** Query builder, as the source writes it: SQL text and arguments *)

(** Go's [append(s, x)] with one element. *)
Definition appendTo {A : Type} (s : list A) (x : A) : list A := (s ++ [x])%list.

(** The closure [arg]: the placeholder for the next argument, and the
    argument list with [a] appended. *)
Definition arg (args : list sqlarg) (a : sqlarg) : string * list sqlarg :=
  (BindVar (List.length args), appendTo args a).

(** The loop [for i, uri := range opt.URIs { uriBindVars[i] = arg(uri) }]. *)
Fixpoint bindEach (args : list sqlarg) (uris : list string)
  : list string * list sqlarg :=
  match uris with
  | [] => ([], args)
  | uri :: rest =>
      let '(v, args1) := arg args (ArgString uri) in
      let '(vs, args2) := bindEach args1 rest in
      (v :: vs, args2)
  end.

(** The map literal [sortKeyToCol]. *)
Definition sortKeyToCol : list (string * string) :=
  [ ("uri", "repo.uri");
    ("path", "repo.uri");
    ("name", "repo.name");
    ("created", "repo.created_at");
    ("updated", "repo.updated_at");
    ("pushed", "repo.pushed_at") ].

(** The lookup [v, ok := m[k]] in a map literal. *)
Fixpoint lookup {V : Type} (m : list (string * V)) (k : string) : option V :=
  match m with
  | [] => None
  | (k', v) :: rest => if k' =? k then Some v else lookup rest k
  end.

(** The identifiers bound by the [uri IN (...)] condition: a single
    element holding a comma is split at the commas (the workaround
    for go-sourcegraph issue 30), anything else is taken as given. *)
Definition effectiveURIs (uris : list string) : list string :=
  if (List.length uris =? 1)%nat && strings.Contains (nth 0 uris "") ","
  then strings.Split (nth 0 uris "") ","
  else uris.

(** [listSQL]: the SQL text and its arguments, or an error. *)
Definition listSQL (opt : RepoListOptions.t) : result (string * list sqlarg) :=
  let args : list sqlarg := [] in
  let queryTerms := strings.Fields (RepoListOptions.Query opt) in
  let uriQuery := strings.ToLower (strings.Join queryTerms "/") in
  (* SELECT, FROM *)
  let selectSQL := "repo.*" in
  let fromSQL := "repo" in
  (* WHERE *)
  let conds : list string := [] in
  let conds := appendTo conds "(NOT blocked)" in
  let conds :=
    if RepoListOptions.NoFork opt then appendTo conds "(NOT fork)" else conds in
  let '(conds, args) :=
    if (0 <? List.length (RepoListOptions.URIs opt))%nat then
      let uris := effectiveURIs (RepoListOptions.URIs opt) in
      let '(uriBindVars, args) := bindEach args uris in
      (appendTo conds ("uri IN (" ++ strings.Join uriBindVars "," ++ ")"), args)
    else (conds, args) in
  let '(conds, args) :=
    if negb (RepoListOptions.Name opt =? "") then
      let '(v, args) :=
        arg args (ArgString (strings.ToLower (RepoListOptions.Name opt))) in
      (appendTo conds ("lower(name)=" ++ v), args)
    else (conds, args) in
  let '(uriQuery, conds, args) :=
    if (1 <=? List.length queryTerms)%nat then
      let uriQuery := strings.ToLower uriQuery in
      let '(v1, args) := arg args (ArgString ("/" ++ uriQuery ++ "%")) in
      let '(v2, args) := arg args (ArgString (uriQuery ++ "%/%")) in
      let '(v3, args) := arg args (ArgString (uriQuery ++ "%")) in
      let '(v4, args) := arg args (ArgString uriQuery) in
      (uriQuery,
       appendTo conds ("lower(uri) LIKE " ++ v1 ++ " OR lower(uri) LIKE " ++ v2
                       ++ " OR lower(name) LIKE " ++ v3 ++ " OR lower(uri) = " ++ v4),
       args)
    else (uriQuery, conds, args) in
  conds <-
    (if RepoListOptions.Type_ opt =? "private" then Ok (appendTo conds "private")
     else if RepoListOptions.Type_ opt =? "public" then Ok (appendTo conds "NOT private")
     else if (RepoListOptions.Type_ opt =? "") || (RepoListOptions.Type_ opt =? "all")
          then Ok conds
     else Err (InvalidArgument "invalid state")) ;;
  if negb (RepoListOptions.Owner opt =? "") then Err errOptionsSpecifyEmptyResult
  else
    let whereSQL :=
      match conds with
      | [] => "true"
      | _ => "(" ++ strings.Join conds ") AND (" ++ ")"
      end in
    (* ORDER BY *)
    let '(orderBySQL, args) :=
      if negb (uriQuery =? "") then
        let '(v, args) :=
          arg args (ArgString (strings.ToLower (path.Base uriQuery))) in
        ("(lower(name) = " ++ v ++ ") DESC, ", args)
      else ("", args) in
    let sort := RepoListOptions.Sort opt in
    let sort := if sort =? "" then "uri" else sort in
    match lookup sortKeyToCol sort with
    | None => Err (InvalidArgument ("invalid sort: " ++ sort))
    | Some sortCol =>
        let sort := sortCol in
        let direction := RepoListOptions.Direction opt in
        let direction := if direction =? "" then "asc" else direction in
        if negb (direction =? "asc") && negb (direction =? "desc")
        then Err (InvalidArgument ("invalid direction: " ++ direction))
        else
          let orderBySQL := orderBySQL ++ sort ++ " " ++ direction ++ " NULLS LAST" in
          let sql := "SELECT " ++ selectSQL ++ " FROM " ++ fromSQL
                     ++ " WHERE " ++ whereSQL ++ " ORDER BY " ++ orderBySQL in
          Ok (sql, args)
    end.

(** ** Query builder, structured

    The same builder, producing the statement as a syntax tree whose
    placeholders are argument positions (counted from zero).
    [sqlText] prints a tree as the SQL text of the source. *)

Inductive column : Type :=
| ColURI | ColName | ColCreatedAt | ColUpdatedAt | ColPushedAt.

Inductive direction : Type := Asc | Desc.

Inductive cond : Type :=
| NotBlocked                          (* (NOT blocked) *)
| NotFork                             (* (NOT fork) *)
| UriIn (vars : list nat)             (* uri IN ($a,$b,...) *)
| LowerNameEq (v : nat)               (* lower(name)=$a *)
| QueryGroup (v1 v2 v3 v4 : nat)      (* lower(uri) LIKE $a OR lower(uri) LIKE $b
                                         OR lower(name) LIKE $c OR lower(uri) = $d *)
| IsPrivate                           (* private *)
| NotPrivate                          (* NOT private *)
| UriEq (v : nat).                    (* uri=$a *)

Record selectStmt : Type := {
  sel_where : list cond;
  sel_tiebreak : option nat;          (* (lower(name) = $a) DESC, *)
  sel_sort : column;
  sel_dir : direction;
  sel_page : option (nat * nat)       (* LIMIT $a OFFSET $b *)
}.

(** The columns written by [Update]. *)
Inductive updColumn : Type :=
| UpdDescription | UpdLanguage | UpdUpdatedAt | UpdPushedAt.

Inductive statement : Type :=
| SelectRepos (q : selectStmt)
| SelectOne (w : cond)                (* SELECT * FROM repo WHERE (...) LIMIT 1 *)
| InsertRepo (r : dbRepo.t)           (* the mapper's insert of one row *)
| UpdateRepo (c : updColumn)          (* UPDATE repo SET "c"=$1 WHERE uri=$2 *)
| DeleteRepo.                         (* DELETE FROM repo WHERE uri=$1; *)

Definition columnText (c : column) : string :=
  match c with
  | ColURI => "repo.uri"
  | ColName => "repo.name"
  | ColCreatedAt => "repo.created_at"
  | ColUpdatedAt => "repo.updated_at"
  | ColPushedAt => "repo.pushed_at"
  end.

Definition directionText (d : direction) : string :=
  match d with Asc => "asc" | Desc => "desc" end.

Definition condText (c : cond) : string :=
  match c with
  | NotBlocked => "(NOT blocked)"
  | NotFork => "(NOT fork)"
  | UriIn vars => "uri IN (" ++ strings.Join (map BindVar vars) "," ++ ")"
  | LowerNameEq v => "lower(name)=" ++ BindVar v
  | QueryGroup v1 v2 v3 v4 =>
      "lower(uri) LIKE " ++ BindVar v1 ++ " OR lower(uri) LIKE " ++ BindVar v2
      ++ " OR lower(name) LIKE " ++ BindVar v3 ++ " OR lower(uri) = " ++ BindVar v4
  | IsPrivate => "private"
  | NotPrivate => "NOT private"
  | UriEq v => "uri=" ++ BindVar v
  end.

Definition whereText (conds : list cond) : string :=
  match conds with
  | [] => "true"
  | _ => "(" ++ strings.Join (map condText conds) ") AND (" ++ ")"
  end.

Definition selectText (q : selectStmt) : string :=
  "SELECT repo.* FROM repo WHERE " ++ whereText (sel_where q)
  ++ " ORDER BY "
  ++ match sel_tiebreak q with
     | Some v => "(lower(name) = " ++ BindVar v ++ ") DESC, "
     | None => ""
     end
  ++ columnText (sel_sort q) ++ " " ++ directionText (sel_dir q) ++ " NULLS LAST"
  ++ match sel_page q with
     | Some (l, o) => " LIMIT " ++ BindVar l ++ " OFFSET " ++ BindVar o
     | None => ""
     end.

Definition updColumnText (c : updColumn) : string :=
  match c with
  | UpdDescription => "description"
  | UpdLanguage => "language"
  | UpdUpdatedAt => "updated_at"
  | UpdPushedAt => "pushed_at"
  end.

(** The double-quote character that delimits a column name. *)
Definition dquote : string := String (ascii_of_nat 34) EmptyString.

(** The text of a statement; the text of an insert is produced by the
    mapping library, not by the store. *)
Definition sqlText (s : statement) : option string :=
  match s with
  | SelectRepos q => Some (selectText q)
  | SelectOne w => Some ("SELECT * FROM repo WHERE (" ++ condText w ++ ") LIMIT 1")
  | InsertRepo _ => None
  | UpdateRepo c =>
      Some ("UPDATE repo SET " ++ dquote ++ updColumnText c ++ dquote
            ++ "=$1 WHERE uri=$2")
  | DeleteRepo => Some "DELETE FROM repo WHERE uri=$1;"
  end.

(** [sortKeyToCol], with the columns as syntax. *)
Definition sortKeyToColumn : list (string * column) :=
  [ ("uri", ColURI);
    ("path", ColURI);
    ("name", ColName);
    ("created", ColCreatedAt);
    ("updated", ColUpdatedAt);
    ("pushed", ColPushedAt) ].

Definition listQuery (opt : RepoListOptions.t) : result (selectStmt * list sqlarg) :=
  let args : list sqlarg := [] in
  let queryTerms := strings.Fields (RepoListOptions.Query opt) in
  let uriQuery := strings.ToLower (strings.Join queryTerms "/") in
  (* WHERE *)
  let conds : list cond := [] in
  let conds := appendTo conds NotBlocked in
  let conds := if RepoListOptions.NoFork opt then appendTo conds NotFork else conds in
  let '(conds, args) :=
    if (0 <? List.length (RepoListOptions.URIs opt))%nat then
      let uris := effectiveURIs (RepoListOptions.URIs opt) in
      (appendTo conds (UriIn (seq (List.length args) (List.length uris))),
       (args ++ map ArgString uris)%list)
    else (conds, args) in
  let '(conds, args) :=
    if negb (RepoListOptions.Name opt =? "") then
      (appendTo conds (LowerNameEq (List.length args)),
       appendTo args (ArgString (strings.ToLower (RepoListOptions.Name opt))))
    else (conds, args) in
  let '(uriQuery, conds, args) :=
    if (1 <=? List.length queryTerms)%nat then
      let uriQuery := strings.ToLower uriQuery in
      let n := List.length args in
      (uriQuery,
       appendTo conds (QueryGroup n (n + 1) (n + 2) (n + 3)),
       (args ++ [ArgString ("/" ++ uriQuery ++ "%");
                 ArgString (uriQuery ++ "%/%");
                 ArgString (uriQuery ++ "%");
                 ArgString uriQuery])%list)
    else (uriQuery, conds, args) in
  conds <-
    (if RepoListOptions.Type_ opt =? "private" then Ok (appendTo conds IsPrivate)
     else if RepoListOptions.Type_ opt =? "public" then Ok (appendTo conds NotPrivate)
     else if (RepoListOptions.Type_ opt =? "") || (RepoListOptions.Type_ opt =? "all")
          then Ok conds
     else Err (InvalidArgument "invalid state")) ;;
  if negb (RepoListOptions.Owner opt =? "") then Err errOptionsSpecifyEmptyResult
  else
    (* ORDER BY *)
    let '(tiebreak, args) :=
      if negb (uriQuery =? "") then
        (Some (List.length args),
         appendTo args (ArgString (strings.ToLower (path.Base uriQuery))))
      else (None, args) in
    let sort := RepoListOptions.Sort opt in
    let sort := if sort =? "" then "uri" else sort in
    match lookup sortKeyToColumn sort with
    | None => Err (InvalidArgument ("invalid sort: " ++ sort))
    | Some sortCol =>
        let direction := RepoListOptions.Direction opt in
        let direction := if direction =? "" then "asc" else direction in
        if negb (direction =? "asc") && negb (direction =? "desc")
        then Err (InvalidArgument ("invalid direction: " ++ direction))
        else
          Ok ({| sel_where := conds;
                 sel_tiebreak := tiebreak;
                 sel_sort := sortCol;
                 sel_dir := if direction =? "asc" then Asc else Desc;
                 sel_page := None |},
              args)
    end.

(** ** The backing store

    How the relational store evaluates the statements the builder
    emits: the [citext] identifier column compares without regard to
    case, [lower] is the ASCII case mapping, [LIKE] has the wildcards
    [%] and [_] and the escape character backslash, strings are
    ordered byte-wise, and [ORDER BY] is a stable sort. *)

Module pg.

Definition lower (s : string) : string := strings.ToLower s.

(** Equality on the [citext] column [uri]. *)
Definition citextEqb (a b : string) : bool := lower a =? lower b.

(** [s LIKE pat].  A pattern that ends in a lone escape character
    matches nothing. *)
Fixpoint like (pat : string) : string -> bool :=
  match pat with
  | EmptyString =>
      fun s => match s with EmptyString => true | String _ _ => false end
  | String c pat' =>
      if Ascii.eqb c "%"%char then
        fix star (s : string) : bool :=
          like pat' s ||
          match s with
          | EmptyString => false
          | String _ s' => star s'
          end
      else if Ascii.eqb c "_"%char then
        fun s => match s with
                 | EmptyString => false
                 | String _ s' => like pat' s'
                 end
      else if Ascii.eqb c "\"%char then
        match pat' with
        | EmptyString => fun _ => false
        | String e pat'' =>
            fun s => match s with
                     | EmptyString => false
                     | String x s' => Ascii.eqb x e && like pat'' s'
                     end
        end
      else
        fun s => match s with
                 | EmptyString => false
                 | String x s' => Ascii.eqb x c && like pat' s'
                 end
  end.

Definition timeCompare (a b : time.Time) : comparison :=
  match Z.compare (time.sec a) (time.sec b) with
  | Eq => Z.compare (time.nsec a) (time.nsec b)
  | c => c
  end.

Definition directed (d : direction) (c : comparison) : comparison :=
  match d with Asc => c | Desc => CompOpp c end.

(** [NULLS LAST]: an absent value follows every present one, whatever
    the direction. *)
Definition nullsLast {A : Type} (cmp : A -> A -> comparison) (d : direction)
  (a b : option A) : comparison :=
  match a, b with
  | Some x, Some y => directed d (cmp x y)
  | Some _, None => Lt
  | None, Some _ => Gt
  | None, None => Eq
  end.

(** A boolean key in descending order: true before false. *)
Definition boolDesc (a b : bool) : comparison :=
  match a, b with
  | true, false => Lt
  | false, true => Gt
  | _, _ => Eq
  end.

Definition columnCompare (c : column) (d : direction) (r1 r2 : dbRepo.t)
  : comparison :=
  match c with
  | ColURI =>
      directed d (String.compare (lower (dbRepo.URI r1)) (lower (dbRepo.URI r2)))
  | ColName => directed d (String.compare (dbRepo.Name r1) (dbRepo.Name r2))
  | ColCreatedAt =>
      directed d (timeCompare (dbRepo.CreatedAt r1) (dbRepo.CreatedAt r2))
  | ColUpdatedAt =>
      nullsLast timeCompare d (dbRepo.UpdatedAt r1) (dbRepo.UpdatedAt r2)
  | ColPushedAt =>
      nullsLast timeCompare d (dbRepo.PushedAt r1) (dbRepo.PushedAt r2)
  end.

(** The string bound to placeholder [v]. *)
Definition argText (args : list sqlarg) (v : nat) : string :=
  match nth_error args v with
  | Some (ArgString s) => s
  | _ => EmptyString
  end.

Definition argInt (args : list sqlarg) (v : nat) : Z :=
  match nth_error args v with
  | Some (ArgInt n) => n
  | _ => 0%Z
  end.

Definition isStringArg (args : list sqlarg) (v : nat) : bool :=
  match nth_error args v with
  | Some (ArgString _) => true
  | _ => false
  end.

Definition isCountArg (args : list sqlarg) (v : nat) : bool :=
  match nth_error args v with
  | Some (ArgInt n) => (0 <=? n)%Z
  | _ => false
  end.

(** A condition can be evaluated when each of its placeholders is
    bound to a string, and an [IN] list is not empty. *)
Definition condBound (args : list sqlarg) (c : cond) : bool :=
  match c with
  | UriIn vars =>
      negb (Nat.eqb (List.length vars) 0) && forallb (isStringArg args) vars
  | LowerNameEq v => isStringArg args v
  | QueryGroup v1 v2 v3 v4 =>
      isStringArg args v1 && isStringArg args v2
      && isStringArg args v3 && isStringArg args v4
  | UriEq v => isStringArg args v
  | NotBlocked | NotFork | IsPrivate | NotPrivate => true
  end.

Definition selectBound (args : list sqlarg) (q : selectStmt) : bool :=
  forallb (condBound args) (sel_where q)
  && match sel_tiebreak q with
     | Some v => isStringArg args v
     | None => true
     end
  && match sel_page q with
     | Some (l, o) => isCountArg args l && isCountArg args o
     | None => true
     end.

Definition condHolds (args : list sqlarg) (r : dbRepo.t) (c : cond) : bool :=
  match c with
  | NotBlocked => negb (dbRepo.Blocked r)
  | NotFork => negb (dbRepo.Fork r)
  | UriIn vars => existsb (fun v => citextEqb (dbRepo.URI r) (argText args v)) vars
  | LowerNameEq v => lower (dbRepo.Name r) =? argText args v
  | QueryGroup v1 v2 v3 v4 =>
      like (argText args v1) (lower (dbRepo.URI r))
      || like (argText args v2) (lower (dbRepo.URI r))
      || like (argText args v3) (lower (dbRepo.Name r))
      || (lower (dbRepo.URI r) =? argText args v4)
  | IsPrivate => dbRepo.Private r
  | NotPrivate => negb (dbRepo.Private r)
  | UriEq v => citextEqb (dbRepo.URI r) (argText args v)
  end.

(** The [WHERE] clause: the conjunction of the conditions. *)
Definition whereHolds (args : list sqlarg) (conds : list cond) (r : dbRepo.t)
  : bool :=
  forallb (condHolds args r) conds.

(** The [ORDER BY] clause: the tie-break key, then the sort column. *)
Definition rowCompare (q : selectStmt) (args : list sqlarg) (r1 r2 : dbRepo.t)
  : comparison :=
  match sel_tiebreak q with
  | Some v =>
      match boolDesc (lower (dbRepo.Name r1) =? argText args v)
                     (lower (dbRepo.Name r2) =? argText args v) with
      | Eq => columnCompare (sel_sort q) (sel_dir q) r1 r2
      | c => c
      end
  | None => columnCompare (sel_sort q) (sel_dir q) r1 r2
  end.

Definition rowLeb (q : selectStmt) (args : list sqlarg) (r1 r2 : dbRepo.t)
  : bool :=
  match rowCompare q args r1 r2 with
  | Gt => false
  | _ => true
  end.

Fixpoint insertBy {A : Type} (leb : A -> A -> bool) (x : A) (l : list A)
  : list A :=
  match l with
  | [] => [x]
  | y :: l' => if leb x y then x :: l else y :: insertBy leb x l'
  end.

Fixpoint sortBy {A : Type} (leb : A -> A -> bool) (l : list A) : list A :=
  match l with
  | [] => []
  | x :: l' => insertBy leb x (sortBy leb l')
  end.

(** The rows a select statement returns from a table. *)
Definition selectRows (rows : list dbRepo.t) (q : selectStmt)
  (args : list sqlarg) : list dbRepo.t :=
  let matching := filter (whereHolds args (sel_where q)) rows in
  let ordered := sortBy (rowLeb q args) matching in
  match sel_page q with
  | Some (l, o) =>
      firstn (Z.to_nat (argInt args l)) (skipn (Z.to_nat (argInt args o)) ordered)
  | None => ordered
  end.

Definition withDescription (v : string) (r : dbRepo.t) : dbRepo.t :=
  {| dbRepo.URI := dbRepo.URI r; dbRepo.Origin := dbRepo.Origin r;
     dbRepo.Name := dbRepo.Name r; dbRepo.Description := v;
     dbRepo.VCS := dbRepo.VCS r; dbRepo.HTTPCloneURL := dbRepo.HTTPCloneURL r;
     dbRepo.SSHCloneURL := dbRepo.SSHCloneURL r;
     dbRepo.HomepageURL := dbRepo.HomepageURL r;
     dbRepo.DefaultBranch := dbRepo.DefaultBranch r;
     dbRepo.Language := dbRepo.Language r; dbRepo.Blocked := dbRepo.Blocked r;
     dbRepo.Deprecated := dbRepo.Deprecated r; dbRepo.Fork := dbRepo.Fork r;
     dbRepo.Mirror := dbRepo.Mirror r; dbRepo.Private := dbRepo.Private r;
     dbRepo.CreatedAt := dbRepo.CreatedAt r; dbRepo.UpdatedAt := dbRepo.UpdatedAt r;
     dbRepo.PushedAt := dbRepo.PushedAt r |}.

Definition withLanguage (v : string) (r : dbRepo.t) : dbRepo.t :=
  {| dbRepo.URI := dbRepo.URI r; dbRepo.Origin := dbRepo.Origin r;
     dbRepo.Name := dbRepo.Name r; dbRepo.Description := dbRepo.Description r;
     dbRepo.VCS := dbRepo.VCS r; dbRepo.HTTPCloneURL := dbRepo.HTTPCloneURL r;
     dbRepo.SSHCloneURL := dbRepo.SSHCloneURL r;
     dbRepo.HomepageURL := dbRepo.HomepageURL r;
     dbRepo.DefaultBranch := dbRepo.DefaultBranch r;
     dbRepo.Language := v; dbRepo.Blocked := dbRepo.Blocked r;
     dbRepo.Deprecated := dbRepo.Deprecated r; dbRepo.Fork := dbRepo.Fork r;
     dbRepo.Mirror := dbRepo.Mirror r; dbRepo.Private := dbRepo.Private r;
     dbRepo.CreatedAt := dbRepo.CreatedAt r; dbRepo.UpdatedAt := dbRepo.UpdatedAt r;
     dbRepo.PushedAt := dbRepo.PushedAt r |}.

Definition withUpdatedAt (v : option time.Time) (r : dbRepo.t) : dbRepo.t :=
  {| dbRepo.URI := dbRepo.URI r; dbRepo.Origin := dbRepo.Origin r;
     dbRepo.Name := dbRepo.Name r; dbRepo.Description := dbRepo.Description r;
     dbRepo.VCS := dbRepo.VCS r; dbRepo.HTTPCloneURL := dbRepo.HTTPCloneURL r;
     dbRepo.SSHCloneURL := dbRepo.SSHCloneURL r;
     dbRepo.HomepageURL := dbRepo.HomepageURL r;
     dbRepo.DefaultBranch := dbRepo.DefaultBranch r;
     dbRepo.Language := dbRepo.Language r; dbRepo.Blocked := dbRepo.Blocked r;
     dbRepo.Deprecated := dbRepo.Deprecated r; dbRepo.Fork := dbRepo.Fork r;
     dbRepo.Mirror := dbRepo.Mirror r; dbRepo.Private := dbRepo.Private r;
     dbRepo.CreatedAt := dbRepo.CreatedAt r; dbRepo.UpdatedAt := v;
     dbRepo.PushedAt := dbRepo.PushedAt r |}.

Definition withPushedAt (v : option time.Time) (r : dbRepo.t) : dbRepo.t :=
  {| dbRepo.URI := dbRepo.URI r; dbRepo.Origin := dbRepo.Origin r;
     dbRepo.Name := dbRepo.Name r; dbRepo.Description := dbRepo.Description r;
     dbRepo.VCS := dbRepo.VCS r; dbRepo.HTTPCloneURL := dbRepo.HTTPCloneURL r;
     dbRepo.SSHCloneURL := dbRepo.SSHCloneURL r;
     dbRepo.HomepageURL := dbRepo.HomepageURL r;
     dbRepo.DefaultBranch := dbRepo.DefaultBranch r;
     dbRepo.Language := dbRepo.Language r; dbRepo.Blocked := dbRepo.Blocked r;
     dbRepo.Deprecated := dbRepo.Deprecated r; dbRepo.Fork := dbRepo.Fork r;
     dbRepo.Mirror := dbRepo.Mirror r; dbRepo.Private := dbRepo.Private r;
     dbRepo.CreatedAt := dbRepo.CreatedAt r; dbRepo.UpdatedAt := dbRepo.UpdatedAt r;
     dbRepo.PushedAt := v |}.

(** The effect of a writing statement on the table, when its arguments
    have the kinds the statement needs. *)
Definition applyWrite (rows : list dbRepo.t) (s : statement) (args : list sqlarg)
  : option (list dbRepo.t) :=
  match s, args with
  | InsertRepo r, [] =>
      if existsb (fun r' => citextEqb (dbRepo.URI r') (dbRepo.URI r)) rows
      then None
      else Some (rows ++ [r])%list
  | UpdateRepo c, [a; ArgString uri] =>
      let set (f : dbRepo.t -> dbRepo.t) :=
        Some (map (fun r => if citextEqb (dbRepo.URI r) uri then f r else r) rows) in
      match c, a with
      | UpdDescription, ArgString v => set (withDescription v)
      | UpdLanguage, ArgString v => set (withLanguage v)
      | UpdUpdatedAt, ArgTimestamp ts => set (withUpdatedAt (Some (pbtypes.Time ts)))
      | UpdPushedAt, ArgTimestamp ts => set (withPushedAt (Some (pbtypes.Time ts)))
      | _, _ => None
      end
  | DeleteRepo, [ArgString uri] =>
      Some (filter (fun r => negb (citextEqb (dbRepo.URI r) uri)) rows)
  | _, _ => None
  end.

End pg.

(** ** The execution handle

    [dbh(ctx)]: the table [repo], the statements issued so far with
    their arguments, and a script that says, for each coming call,
    whether the handle fails on it (connectivity and the like) before
    touching the table. *)

Record handle : Type := {
  table : list dbRepo.t;
  faults : list (option string);
  journal : list (statement * list sqlarg)
}.

(** A store operation: it transforms the handle and returns a value or
    an error. *)
Definition M (A : Type) : Type := handle -> handle * result A.

Definition ret {A : Type} (a : A) : M A := fun h => (h, Ok a).

Definition fail {A : Type} (e : error) : M A := fun h => (h, Err e).

Definition bindM {A B : Type} (m : M A) (k : A -> M B) : M B :=
  fun h =>
    match m h with
    | (h', Ok a) => k a h'
    | (h', Err e) => (h', Err e)
    end.

Notation "x <== m ;; k" := (bindM m (fun x => k))
  (at level 61, m at next level, right associativity).

(** Issuing a statement: it is recorded, and the next entry of the
    fault script decides whether the call reaches the table. *)
Definition issue (s : statement) (args : list sqlarg) : M unit :=
  fun h =>
    let h' := {| table := table h;
                 faults := tl (faults h);
                 journal := appendTo (journal h) (s, args) |} in
    match faults h with
    | Some msg :: _ => (h', Err (ExecutionFailure msg))
    | _ => (h', Ok tt)
    end.

(** [dbh(ctx).Select(&repos, sql, args...)]. *)
Definition Select (q : selectStmt) (args : list sqlarg) : M (list dbRepo.t) :=
  _ <== issue (SelectRepos q) args ;;
  fun h =>
    if pg.selectBound args q
    then (h, Ok (pg.selectRows (table h) q args))
    else (h, Err (ExecutionFailure "bind")).

(** [Select] of a statement [SELECT * FROM repo WHERE (...) LIMIT 1]. *)
Definition SelectFirst (w : cond) (args : list sqlarg) : M (list dbRepo.t) :=
  _ <== issue (SelectOne w) args ;;
  fun h =>
    if pg.condBound args w
    then (h, Ok (firstn 1 (filter (fun r => pg.condHolds args r w) (table h))))
    else (h, Err (ExecutionFailure "bind")).

(** [dbh(ctx).Exec(sql, args...)] and [dbh(ctx).Insert(&r)]. *)
Definition Exec (s : statement) (args : list sqlarg) : M unit :=
  _ <== issue s args ;;
  fun h =>
    match pg.applyWrite (table h) s args with
    | Some rows =>
        ({| table := rows; faults := faults h; journal := journal h |}, Ok tt)
    | None => (h, Err (ExecutionFailure "statement"))
    end.

Definition Insert (r : dbRepo.t) : M unit := Exec (InsertRepo r) [].

(** ** Store operations *)

Section Store.

(** The page size used when the options leave it unset
    ([sourcegraph.DefaultPerPage], declared outside this package). *)
Variable DefaultPerPage : Z.

(** Modelled from the spec: [ListOptions.PerPageOrDefault], declared
    with the options type, outside this package; pagination uses the
    option default when the page size is unset. *)
Definition PerPageOrDefault (opt : RepoListOptions.t) : Z :=
  if (RepoListOptions.PerPage opt <=? 0)%Z then DefaultPerPage
  else RepoListOptions.PerPage opt.

(** Modelled from the spec: [ListOptions.PageOrDefault], declared with
    the options type; pages are counted from one. *)
Definition PageOrDefault (opt : RepoListOptions.t) : Z :=
  if (RepoListOptions.Page opt <=? 0)%Z then 1%Z else RepoListOptions.Page opt.

(** Modelled from the spec: [ListOptions.Offset], declared with the
    options type; the offset of the first row of the requested page. *)
Definition Offset (opt : RepoListOptions.t) : Z :=
  ((PageOrDefault opt - 1) * PerPageOrDefault opt)%Z.

Definition query (q : selectStmt) (args : list sqlarg) : M (list Repo.t) :=
  repos <== Select q args ;;
  ret (toRepos repos).

Definition withPage (q : selectStmt) (l o : nat) : selectStmt :=
  {| sel_where := sel_where q;
     sel_tiebreak := sel_tiebreak q;
     sel_sort := sel_sort q;
     sel_dir := sel_dir q;
     sel_page := Some (l, o) |}.

(** [List]; [opt] is [None] for a nil pointer.  The statement goes to
    the handle as a syntax tree; its text is that of [listSQL] with
    the [LIMIT] and [OFFSET] placeholders appended ([List_text]). *)
Definition List (opt : option RepoListOptions.t) : M (list Repo.t) :=
  let opt := match opt with
             | None => RepoListOptions.zero
             | Some o => o
             end in
  match listQuery opt with
  | Err errOptionsSpecifyEmptyResult => ret []
  | Err e => fail e
  | Ok (q, args) =>
      (* LIMIT and OFFSET *)
      let l := List.length args in
      let args := appendTo args (ArgInt (PerPageOrDefault opt)) in
      let o := List.length args in
      let args := appendTo args (ArgInt (Offset opt)) in
      query (withPage q l o) args
  end.

Definition getBySQL (w : cond) (args : list sqlarg) : M Repo.t :=
  repos <== SelectFirst w args ;;
  match repos with
  | [] => fail (RepoNotFoundError "(unknown)")
  | r :: _ => ret (toRepo r)
  end.

Definition getByURI (uri : string) : M Repo.t :=
  fun h =>
    match getBySQL (UriEq 0) [ArgString uri] h with
    | (h', Err (RepoNotFoundError _)) => (h', Err (RepoNotFoundError uri))
    | res => res
    end.

Definition Get (repo : string) : M Repo.t := getByURI repo.

Definition withDefaultBranch (v : string) (r : Repo.t) : Repo.t :=
  {| Repo.URI := Repo.URI r; Repo.Origin := Repo.Origin r;
     Repo.Name := Repo.Name r; Repo.Description := Repo.Description r;
     Repo.VCS := Repo.VCS r; Repo.HTTPCloneURL := Repo.HTTPCloneURL r;
     Repo.SSHCloneURL := Repo.SSHCloneURL r;
     Repo.HomepageURL := Repo.HomepageURL r;
     Repo.DefaultBranch := v;
     Repo.Language := Repo.Language r; Repo.Blocked := Repo.Blocked r;
     Repo.Deprecated := Repo.Deprecated r; Repo.Fork := Repo.Fork r;
     Repo.Mirror := Repo.Mirror r; Repo.Private := Repo.Private r;
     Repo.CreatedAt := Repo.CreatedAt r; Repo.UpdatedAt := Repo.UpdatedAt r;
     Repo.PushedAt := Repo.PushedAt r |}.

Definition Create (newRepo : Repo.t) : M Repo.t :=
  if negb (Repo.Mirror newRepo) then fail ErrRepoMirrorOnly
  else if (Repo.HTTPCloneURL newRepo =? "") && (Repo.SSHCloneURL newRepo =? "")
  then fail ErrRepoNeedsCloneURL
  else
    let newRepo :=
      if Repo.DefaultBranch newRepo =? ""
      then withDefaultBranch "master" newRepo
      else newRepo in
    let r := fromRepo dbRepo.zero newRepo in
    _ <== Insert r ;;
    ret (toRepo r).

Definition Update (op : RepoUpdate.t) : M unit :=
  _ <== (if negb (RepoUpdate.Description op =? "")
         then Exec (UpdateRepo UpdDescription)
                [ArgString (strings.TrimSpace (RepoUpdate.Description op));
                 ArgString (RepoUpdate.URI op)]
         else ret tt) ;;
  _ <== (if negb (RepoUpdate.Language op =? "")
         then Exec (UpdateRepo UpdLanguage)
                [ArgString (strings.TrimSpace (RepoUpdate.Language op));
                 ArgString (RepoUpdate.URI op)]
         else ret tt) ;;
  _ <== match RepoUpdate.UpdatedAt op with
        | Some ts =>
            Exec (UpdateRepo UpdUpdatedAt)
              [ArgTimestamp ts; ArgString (RepoUpdate.URI op)]
        | None => ret tt
        end ;;
  _ <== match RepoUpdate.PushedAt op with
        | Some ts =>
            Exec (UpdateRepo UpdPushedAt)
              [ArgTimestamp ts; ArgString (RepoUpdate.URI op)]
        | None => ret tt
        end ;;
  ret tt.

Definition Delete (repo : string) : M unit :=
  Exec DeleteRepo [ArgString repo].

End Store.

(** ** Reference definitions

    What the statements of the properties are written with: which rows
    the options admit, which option values are supported, what [List]
    and [Update] hand to the handle, and sample options, rows and
    handles. *)

(** *** The rows the options admit *)

(** The probe of the free-text query: its terms joined by slashes,
    lowercased ([uriQuery] in the source). *)
Definition probe (opt : RepoListOptions.t) : string :=
  strings.ToLower (strings.Join (strings.Fields (RepoListOptions.Query opt)) "/").

(** The OR-group of the free-text filter, as the store evaluates it
    for probe [p]. *)
Definition queryMatches (p : string) (r : dbRepo.t) : bool :=
  pg.like ("/" ++ p ++ "%") (pg.lower (dbRepo.URI r))
  || pg.like (p ++ "%/%") (pg.lower (dbRepo.URI r))
  || pg.like (p ++ "%") (pg.lower (dbRepo.Name r))
  || (pg.lower (dbRepo.URI r) =? p).

(** The rows the options admit: the conjunction of the conditions
    the builder adds for them. *)
Definition admits (opt : RepoListOptions.t) (r : dbRepo.t) : bool :=
  negb (dbRepo.Blocked r)
  && (if RepoListOptions.NoFork opt then negb (dbRepo.Fork r) else true)
  && match RepoListOptions.URIs opt with
     | [] => true
     | _ => existsb (pg.citextEqb (dbRepo.URI r))
              (effectiveURIs (RepoListOptions.URIs opt))
     end
  && (if RepoListOptions.Name opt =? "" then true
      else pg.lower (dbRepo.Name r) =? strings.ToLower (RepoListOptions.Name opt))
  && match strings.Fields (RepoListOptions.Query opt) with
     | [] => true
     | _ => queryMatches (probe opt) r
     end
  && (if RepoListOptions.Type_ opt =? "private" then dbRepo.Private r
      else if RepoListOptions.Type_ opt =? "public" then negb (dbRepo.Private r)
      else true).





(** *** The option values the builder accepts *)

(** The visibility values, sort keys and directions the builder
    accepts. *)
Definition supportedType (t : string) : bool :=
  existsb (String.eqb t) [""; "all"; "public"; "private"].

Definition supportedSort (k : string) : bool :=
  existsb (String.eqb k) [""; "path"; "uri"; "name"; "created"; "updated"; "pushed"].

Definition supportedDirection (d : string) : bool :=
  existsb (String.eqb d) [""; "asc"; "desc"].

(** *** Running [List] *)

(** The options [List] works with: the zero value for a nil pointer. *)
Definition optOrZero (opt : option RepoListOptions.t) : RepoListOptions.t :=
  match opt with
  | None => RepoListOptions.zero
  | Some o => o
  end.

(** The statement and the arguments that [List] hands to the handle. *)
Definition pagedQuery (q : selectStmt) (args : list sqlarg) : selectStmt :=
  withPage q (List.length args) (S (List.length args)).

(** The arguments of that statement: those of the builder, then the
    page size and the offset. *)
Definition pagedArgs (D : Z) (opt : RepoListOptions.t) (args : list sqlarg)
  : list sqlarg :=
  (args ++ [ArgInt (PerPageOrDefault D opt); ArgInt (Offset D opt)])%list.

(** The handle after one more statement was issued. *)
Definition issued (h : handle) (s : statement) (args : list sqlarg) : handle :=
  {| table := table h;
     faults := tl (faults h);
     journal := appendTo (journal h) (s, args) |}.

(** The records [List] returns; none when it fails. *)
Definition listed (D : Z) (o : option RepoListOptions.t) (h : handle)
  : list Repo.t :=
  match snd (List D o h) with
  | Ok rs => rs
  | Err _ => []
  end.




(** *** Running [Update] *)

(** The statements an operation issues on a handle. *)
Definition issuedDuring {A : Type} (m : M A) (h : handle)
  : list (statement * list sqlarg) :=
  skipn (List.length (journal h)) (journal (fst (m h))).

(** The statements [Update] is to issue: one per supplied field, in
    the order description, language, updated_at, pushed_at. *)
Definition updateStatements (op : RepoUpdate.t) : list (statement * list sqlarg) :=
  ((if RepoUpdate.Description op =? "" then []
    else [(UpdateRepo UpdDescription,
           [ArgString (strings.TrimSpace (RepoUpdate.Description op));
            ArgString (RepoUpdate.URI op)])])
   ++ (if RepoUpdate.Language op =? "" then []
       else [(UpdateRepo UpdLanguage,
              [ArgString (strings.TrimSpace (RepoUpdate.Language op));
               ArgString (RepoUpdate.URI op)])])
   ++ match RepoUpdate.UpdatedAt op with
      | Some ts => [(UpdateRepo UpdUpdatedAt,
                     [ArgTimestamp ts; ArgString (RepoUpdate.URI op)])]
      | None => []
      end
   ++ match RepoUpdate.PushedAt op with
      | Some ts => [(UpdateRepo UpdPushedAt,
                     [ArgTimestamp ts; ArgString (RepoUpdate.URI op)])]
      | None => []
      end)%list.

(** Executing statements one after the other, stopping at the first
    failure. *)
Fixpoint execAll (stmts : list (statement * list sqlarg)) : M unit :=
  match stmts with
  | [] => ret tt
  | (s, args) :: rest => bindM (Exec s args) (fun _ => execAll rest)
  end.


(** A statement preserves the projection [pi] of the rows. *)
Definition preserves {B : Type} (pi : dbRepo.t -> B)
  (e : statement * list sqlarg) : Prop :=
  forall rows rows',
    pg.applyWrite rows (fst e) (snd e) = Some rows' ->
    map pi rows' = map pi rows.




(** *** Sample options, records, rows and handles *)

(** Options with a free-text query and nothing else. *)
Definition optQuery (query : string) : RepoListOptions.t :=
  {| RepoListOptions.Name := ""; RepoListOptions.Query := query;
     RepoListOptions.URIs := []; RepoListOptions.Sort := "";
     RepoListOptions.Direction := ""; RepoListOptions.NoFork := false;
     RepoListOptions.Type_ := ""; RepoListOptions.Owner := "";
     RepoListOptions.PerPage := 0; RepoListOptions.Page := 0 |}.

(** Options with an identifiers list and nothing else. *)
Definition optURIs (uris : list string) : RepoListOptions.t :=
  {| RepoListOptions.Name := ""; RepoListOptions.Query := "";
     RepoListOptions.URIs := uris; RepoListOptions.Sort := "";
     RepoListOptions.Direction := ""; RepoListOptions.NoFork := false;
     RepoListOptions.Type_ := ""; RepoListOptions.Owner := "";
     RepoListOptions.PerPage := 0; RepoListOptions.Page := 0 |}.

(** Options with an owner and nothing else. *)
Definition optOwner : RepoListOptions.t :=
  {| RepoListOptions.Name := ""; RepoListOptions.Query := "";
     RepoListOptions.URIs := []; RepoListOptions.Sort := "";
     RepoListOptions.Direction := ""; RepoListOptions.NoFork := false;
     RepoListOptions.Type_ := ""; RepoListOptions.Owner := "alice";
     RepoListOptions.PerPage := 0; RepoListOptions.Page := 0 |}.

(** Options with an owner and an unsupported sort key. *)
Definition optOwnerBadSort : RepoListOptions.t :=
  {| RepoListOptions.Name := ""; RepoListOptions.Query := "";
     RepoListOptions.URIs := []; RepoListOptions.Sort := "bogus";
     RepoListOptions.Direction := ""; RepoListOptions.NoFork := false;
     RepoListOptions.Type_ := ""; RepoListOptions.Owner := "alice";
     RepoListOptions.PerPage := 0; RepoListOptions.Page := 0 |}.

(** Options with an owner and an unsupported visibility value. *)
Definition optOwnerBadType : RepoListOptions.t :=
  {| RepoListOptions.Name := ""; RepoListOptions.Query := "";
     RepoListOptions.URIs := []; RepoListOptions.Sort := "";
     RepoListOptions.Direction := ""; RepoListOptions.NoFork := false;
     RepoListOptions.Type_ := "bogus"; RepoListOptions.Owner := "alice";
     RepoListOptions.PerPage := 0; RepoListOptions.Page := 0 |}.

(** A row with the given identifier, name and blocked flag. *)
Definition rowOf (uri name : string) (blocked : bool) : dbRepo.t :=
  {| dbRepo.URI := uri; dbRepo.Origin := ""; dbRepo.Name := name;
     dbRepo.Description := ""; dbRepo.VCS := "git";
     dbRepo.HTTPCloneURL := ""; dbRepo.SSHCloneURL := "";
     dbRepo.HomepageURL := ""; dbRepo.DefaultBranch := "master";
     dbRepo.Language := ""; dbRepo.Blocked := blocked;
     dbRepo.Deprecated := false; dbRepo.Fork := false;
     dbRepo.Mirror := true; dbRepo.Private := false;
     dbRepo.CreatedAt := time.zero; dbRepo.UpdatedAt := None;
     dbRepo.PushedAt := None |}.

(** A record to create, with the given mirror flag and clone URL. *)
Definition repoOf (uri : string) (mirror : bool) (sshCloneURL : string) : Repo.t :=
  {| Repo.URI := uri; Repo.Origin := ""; Repo.Name := ""; Repo.Description := "";
     Repo.VCS := "git"; Repo.HTTPCloneURL := ""; Repo.SSHCloneURL := sshCloneURL;
     Repo.HomepageURL := ""; Repo.DefaultBranch := ""; Repo.Language := "";
     Repo.Blocked := false; Repo.Deprecated := false; Repo.Fork := false;
     Repo.Mirror := mirror; Repo.Private := false;
     Repo.CreatedAt := None; Repo.UpdatedAt := None; Repo.PushedAt := None |}.


(** A handle on the given table that does not fail. *)
Definition handleOn (rows : list dbRepo.t) : handle :=
  {| table := rows; faults := []; journal := [] |}.

(** A handle on an empty table that does not fail. *)
Definition emptyHandle : handle :=
  {| table := []; faults := []; journal := [] |}.

(** *** Keys, what an operation leaves alone, placeholders and shapes *)

(** The handle does not fail on its next call. *)
Definition ready (h : handle) : Prop :=
  match faults h with
  | Some _ :: _ => False
  | _ => True
  end.

(** The first row of the given identifier, compared as the identifier
    column compares. *)
Definition firstMatch (uri : string) (rows : list dbRepo.t) : option dbRepo.t :=
  find (fun r => pg.citextEqb (dbRepo.URI r) uri) rows.

(** No two rows have the same identifier, up to case. *)
Definition uniqueURIs (rows : list dbRepo.t) : Prop :=
  NoDup (map (fun r => pg.lower (dbRepo.URI r)) rows).

(** The record [Create] stores: the input with its default branch set. *)
Definition createdRow (newRepo : Repo.t) : dbRepo.t :=
  fromRepo dbRepo.zero
    (if Repo.DefaultBranch newRepo =? "" then withDefaultBranch "master" newRepo
     else newRepo).

(** The columns [Update] never writes: the row with the four columns
    it can write blanked out. *)
Definition fixedColumns (r : dbRepo.t) : dbRepo.t :=
  pg.withDescription ""
    (pg.withLanguage "" (pg.withUpdatedAt None (pg.withPushedAt None r))).

(** What an update of [op] cannot change in a row: the whole row when
    it has another identifier, the fixed columns otherwise. *)
Definition outsideUpdate (op : RepoUpdate.t) (r : dbRepo.t) : dbRepo.t :=
  if pg.citextEqb (dbRepo.URI r) (RepoUpdate.URI op) then fixedColumns r else r.


(** The placeholders of a condition, in the order of its text. *)
Definition condVars (c : cond) : list nat :=
  match c with
  | UriIn vars => vars
  | LowerNameEq v => [v]
  | QueryGroup v1 v2 v3 v4 => [v1; v2; v3; v4]
  | UriEq v => [v]
  | NotBlocked | NotFork | IsPrivate | NotPrivate => []
  end.

(** The placeholders of a select statement, in the order of its text:
    those of the [WHERE] clause, the tie-break term, [LIMIT] and
    [OFFSET]. *)
Definition selectVars (q : selectStmt) : list nat :=
  (flat_map condVars (sel_where q)
   ++ match sel_tiebreak q with
      | Some v => [v]
      | None => []
      end
   ++ match sel_page q with
      | Some (l, o) => [l; o]
      | None => []
      end)%list.





(** *** More sample records, options, rows and handles *)

(** A mirror record to create, with an SSH clone URL and a name. *)
Definition mirrorOf (uri name : string) : Repo.t :=
  {| Repo.URI := uri; Repo.Origin := ""; Repo.Name := name; Repo.Description := "";
     Repo.VCS := "git"; Repo.HTTPCloneURL := "";
     Repo.SSHCloneURL := "git@" ++ uri;
     Repo.HomepageURL := ""; Repo.DefaultBranch := ""; Repo.Language := "";
     Repo.Blocked := false; Repo.Deprecated := false; Repo.Fork := false;
     Repo.Mirror := true; Repo.Private := false;
     Repo.CreatedAt := None; Repo.UpdatedAt := None; Repo.PushedAt := None |}.





(** Options with a sort key and a direction. *)
Definition optSort (sort direction : string) : RepoListOptions.t :=
  {| RepoListOptions.Name := ""; RepoListOptions.Query := "";
     RepoListOptions.URIs := []; RepoListOptions.Sort := sort;
     RepoListOptions.Direction := direction; RepoListOptions.NoFork := false;
     RepoListOptions.Type_ := ""; RepoListOptions.Owner := "";
     RepoListOptions.PerPage := 0; RepoListOptions.Page := 0 |}.


(** A row with the given identifier and time of last update. *)
Definition rowUpdatedAt (uri : string) (updated : option time.Time) : dbRepo.t :=
  pg.withUpdatedAt updated (rowOf uri "" false).

(** * Properties *)

(** ** The Go helpers *)

Example Fields_ex : strings.Fields "  foo   bar " = ["foo"; "bar"].
Proof. reflexivity. Qed.

Example Split_ex : strings.Split "a,b,,c" "," = ["a"; "b"; ""; "c"].
Proof. reflexivity. Qed.

Example Base_ex : path.Base "foo/bar/" = "bar" /\ path.Base "///" = "/" /\ path.Base "" = ".".
Proof. repeat split; reflexivity. Qed.

Example BindVar_ex : BindVar 0 = "$1" /\ BindVar 11 = "$12".
Proof. split; reflexivity. Qed.

Example TrimSpace_ex : strings.TrimSpace "  a b  " = "a b" /\ strings.TrimSpace "   " = "".
Proof. split; reflexivity. Qed.

Lemma toLowerByte_idem (c : ascii) :
  strings.toLowerByte (strings.toLowerByte c) = strings.toLowerByte c.
Proof. destruct c as [[] [] [] [] [] [] [] []]; reflexivity. Qed.

Lemma ToLower_idem (s : string) :
  strings.ToLower (strings.ToLower s) = strings.ToLower s.
Proof.
  induction s as [|c s IH]; simpl; [reflexivity|].
  now rewrite toLowerByte_idem, IH.
Qed.

Lemma splitFrom_nonempty (s sep : string) : forall skip,
  strings.splitFrom skip s sep <> [].
Proof.
  induction s as [|c s IH]; intros skip; [destruct skip; discriminate|].
  destruct skip; [|apply IH].
  cbn [strings.splitFrom].
  destruct (strings.HasPrefix (String c s) sep); [discriminate|].
  destruct (strings.splitFrom 0 s sep); discriminate.
Qed.

Lemma effectiveURIs_nonempty (u : string) (us : list string) :
  effectiveURIs (u :: us) <> [].
Proof.
  unfold effectiveURIs.
  destruct (_ && _); [apply splitFrom_nonempty | discriminate].
Qed.



Lemma append_assoc (a b c : string) : (a ++ b) ++ c = a ++ (b ++ c).
Proof.
  induction a as [|x a IH]; [reflexivity|]. cbn. now rewrite IH.
Qed.

(** ** Lists *)

Lemma nth_error_at {A : Type} (l R : list A) (k : nat) :
  nth_error (l ++ R) (List.length l + k) = nth_error R k.
Proof.
  rewrite nth_error_app2 by lia. f_equal. lia.
Qed.

Lemma nth_error_at0 {A : Type} (l R : list A) :
  nth_error (l ++ R) (List.length l) = nth_error R 0.
Proof. rewrite <- (Nat.add_0_r (List.length l)) at 1. apply nth_error_at. Qed.

Lemma length_appendTo {A : Type} (l : list A) (x : A) :
  List.length (appendTo l x) = S (List.length l).
Proof. unfold appendTo. now rewrite length_app, Nat.add_1_r. Qed.

Lemma appendTo_twice {A : Type} (l : list A) (x y : A) :
  appendTo (appendTo l x) y = (l ++ [x; y])%list.
Proof. unfold appendTo. now rewrite <- app_assoc. Qed.

Lemma skipn_app_length {A : Type} (l l' : list A) :
  skipn (List.length l) (l ++ l') = l'.
Proof.
  rewrite skipn_app, skipn_all, Nat.sub_diag. reflexivity.
Qed.


Lemma In_firstn {A : Type} (n : nat) (l : list A) (x : A) :
  In x (firstn n l) -> In x l.
Proof.
  intros H. rewrite <- (firstn_skipn n l). apply in_or_app. now left.
Qed.

Lemma In_skipn {A : Type} (n : nat) (l : list A) (x : A) :
  In x (skipn n l) -> In x l.
Proof.
  intros H. rewrite <- (firstn_skipn n l). apply in_or_app. now right.
Qed.


(** ** The text the builder emits is the printed syntax tree *)

Lemma bindEach_spec (uris : list string) : forall args : list sqlarg,
  bindEach args uris
  = (map BindVar (seq (List.length args) (List.length uris)),
     (args ++ map ArgString uris)%list).
Proof.
  induction uris as [|u us IH]; intros args; simpl.
  - now rewrite app_nil_r.
  - rewrite IH. unfold appendTo. rewrite length_app, <- app_assoc. simpl.
    now rewrite Nat.add_1_r.
Qed.

Lemma lookup_sortKeyToCol (k : string) :
  lookup sortKeyToCol k = option_map columnText (lookup sortKeyToColumn k).
Proof.
  unfold sortKeyToCol, sortKeyToColumn; simpl.
  repeat match goal with
         | |- context [if ?b then _ else _] => destruct b; [reflexivity|]
         end.
  reflexivity.
Qed.

(** The result of [listSQL] is that of [listQuery], printed. *)
Theorem listSQL_listQuery (opt : RepoListOptions.t) :
  listSQL opt
  = match listQuery opt with
    | Ok (q, args) => Ok (selectText q, args)
    | Err e => Err e
    end.
Proof.
  unfold listSQL, listQuery. cbv zeta.
  rewrite bindEach_spec, lookup_sortKeyToCol.
  destruct (RepoListOptions.Type_ opt =? "private");
  [ | destruct (RepoListOptions.Type_ opt =? "public");
      [ | destruct ((RepoListOptions.Type_ opt =? "")
                    || (RepoListOptions.Type_ opt =? "all")) ] ];
  destruct (RepoListOptions.NoFork opt);
  destruct (0 <? List.length (RepoListOptions.URIs opt))%nat;
  destruct (negb (RepoListOptions.Name opt =? ""));
  destruct (1 <=? List.length (strings.Fields (RepoListOptions.Query opt)))%nat;
  cbn [bind arg fst snd];
  lazymatch goal with
  | |- Err _ = Err _ => reflexivity
  | |- _ => idtac
  end;
  (destruct (negb (RepoListOptions.Owner opt =? "")); [reflexivity|]);
  (destruct (lookup sortKeyToColumn
               (if RepoListOptions.Sort opt =? "" then "uri"
                else RepoListOptions.Sort opt)) as [col|];
   cbn [option_map];
   [ | match goal with
       | |- context [negb (?p =? "")] => destruct (negb (p =? "")); reflexivity
       end ]);
  (destruct (RepoListOptions.Direction opt =? "") eqn:Hd0;
   [ cbn [String.eqb Ascii.eqb Bool.eqb negb andb]
   | destruct (RepoListOptions.Direction opt =? "asc") eqn:Hd1;
     [ apply String.eqb_eq in Hd1; rewrite Hd1
     | destruct (RepoListOptions.Direction opt =? "desc") eqn:Hd2;
       [ apply String.eqb_eq in Hd2; rewrite Hd2
       | match goal with
         | |- context [negb (?p =? "")] => destruct (negb (p =? "")); reflexivity
         end ] ] ]);
  cbn [negb andb String.eqb Ascii.eqb Bool.eqb];
  match goal with
  | |- context [negb (?p =? "")] => destruct (negb (p =? ""))
  end;
  unfold selectText, whereText, appendTo;
  cbn [sel_where sel_tiebreak sel_sort sel_dir sel_page map app condText
       directionText];
  repeat rewrite length_app; cbn [List.length];
  repeat rewrite <- app_assoc; cbn [app];
  repeat rewrite <- Nat.add_assoc; cbn [Nat.add];
  reflexivity.
Qed.

(** ** What the builder produces *)

Lemma argText_bound (pre : list sqlarg) (us : list string) (rest : list sqlarg)
  (f : string -> bool) :
  existsb (fun v => f (pg.argText (pre ++ map ArgString us ++ rest) v))
    (seq (List.length pre) (List.length us))
  = existsb f us.
Proof.
  revert pre. induction us as [|u us IH]; intros pre; [reflexivity|].
  cbn [List.length seq existsb map app].
  unfold pg.argText at 1. rewrite nth_error_at0. cbn [nth_error].
  f_equal.
  specialize (IH (pre ++ [ArgString u])%list).
  rewrite length_app, Nat.add_1_r, <- app_assoc in IH. exact IH.
Qed.

Lemma isStringArg_bound (pre : list sqlarg) (us : list string) (rest : list sqlarg) :
  forallb (pg.isStringArg (pre ++ map ArgString us ++ rest))
    (seq (List.length pre) (List.length us)) = true.
Proof.
  revert pre. induction us as [|u us IH]; intros pre; [reflexivity|].
  cbn [List.length seq forallb map app].
  unfold pg.isStringArg at 1. rewrite nth_error_at0. cbn [nth_error andb].
  specialize (IH (pre ++ [ArgString u])%list).
  rewrite length_app, Nat.add_1_r, <- app_assoc in IH. exact IH.
Qed.

Ltac lookups :=
  unfold pg.argText, pg.isStringArg;
  repeat rewrite nth_error_at; repeat rewrite nth_error_at0;
  cbn [nth_error].

Ltac split_listQuery opt p :=
  destruct (RepoListOptions.Type_ opt =? "private");
  [ | destruct (RepoListOptions.Type_ opt =? "public");
      [ | destruct ((RepoListOptions.Type_ opt =? "")
                    || (RepoListOptions.Type_ opt =? "all")) ] ];
  destruct (RepoListOptions.NoFork opt);
  destruct (RepoListOptions.URIs opt) as [|u0 us0];
  destruct (RepoListOptions.Name opt =? "");
  destruct (strings.Fields (RepoListOptions.Query opt)) as [|t0 ts0];
  cbn [bind negb Nat.ltb Nat.leb List.length];
  try discriminate;
  (destruct (negb (RepoListOptions.Owner opt =? "")); [discriminate|]);
  (destruct (p =? "") eqn:Hp; cbn [negb];
   try (exfalso; subst p; cbn in Hp; discriminate Hp));
  (destruct (lookup sortKeyToColumn _); [|discriminate]);
  (destruct (negb _ && negb _); [discriminate|]).

Ltac normalize_args :=
  unfold appendTo;
  cbn [sel_where sel_tiebreak app];
  repeat rewrite length_app; rewrite ?length_map; cbn [List.length Nat.add];
  repeat rewrite <- app_assoc; cbn [app];
  repeat rewrite <- Nat.add_assoc; cbn [Nat.add].

(** The [WHERE] clause that [listQuery] builds holds of a row exactly
    when the options admit it; arguments bound later do not matter. *)
Theorem listQuery_where (opt : RepoListOptions.t) (q : selectStmt)
  (args more : list sqlarg) (r : dbRepo.t) :
  listQuery opt = Ok (q, args) ->
  pg.whereHolds (args ++ more) (sel_where q) r = admits opt r.
Proof.
  unfold listQuery, admits, probe, queryMatches. cbv zeta.
  rewrite ToLower_idem.
  set (p := strings.ToLower
              (strings.Join (strings.Fields (RepoListOptions.Query opt)) "/")).
  assert (Hu : forall rest,
    existsb (fun v => pg.citextEqb (dbRepo.URI r)
       (pg.argText
          (map ArgString (effectiveURIs (RepoListOptions.URIs opt)) ++ rest) v))
       (seq 0 (List.length (effectiveURIs (RepoListOptions.URIs opt))))
    = existsb (pg.citextEqb (dbRepo.URI r))
        (effectiveURIs (RepoListOptions.URIs opt))).
  { intros rest. apply (argText_bound [] _ rest (pg.citextEqb (dbRepo.URI r))). }
  set (uris := effectiveURIs (RepoListOptions.URIs opt)) in *.
  split_listQuery opt p;
  intros H; injection H as <- <-;
  unfold pg.whereHolds; normalize_args; cbn [forallb pg.condHolds];
  rewrite ?Hu;
  rewrite <- ?(length_map ArgString uris);
  lookups;
  rewrite ?andb_true_r; rewrite ?andb_assoc; reflexivity.
Qed.

(** Every placeholder of the statement that [listQuery] builds is
    bound to a string, and the tie-break key is the last path segment
    of the probe. *)
Theorem listQuery_bound (opt : RepoListOptions.t) (q : selectStmt)
  (args more : list sqlarg) :
  listQuery opt = Ok (q, args) ->
  forallb (pg.condBound (args ++ more)) (sel_where q) = true
  /\ match sel_tiebreak q with
     | Some v =>
         probe opt <> ""
         /\ S v = List.length args
         /\ nth_error (args ++ more) v
            = Some (ArgString (strings.ToLower (path.Base (probe opt))))
     | None => probe opt = ""
     end.
Proof.
  unfold listQuery, probe. cbv zeta.
  rewrite ToLower_idem.
  set (p := strings.ToLower
              (strings.Join (strings.Fields (RepoListOptions.Query opt)) "/")).
  assert (Hu : forall rest,
    forallb (pg.isStringArg
               (map ArgString (effectiveURIs (RepoListOptions.URIs opt)) ++ rest))
       (seq 0 (List.length (effectiveURIs (RepoListOptions.URIs opt)))) = true).
  { intros rest. apply (isStringArg_bound [] _ rest). }
  assert (Hn : forall u us,
    RepoListOptions.URIs opt = u :: us ->
    Nat.eqb (List.length (effectiveURIs (RepoListOptions.URIs opt))) 0 = false).
  { intros u us E. rewrite E. apply Nat.eqb_neq. intros L.
    apply (effectiveURIs_nonempty u us). now apply length_zero_iff_nil. }
  set (uris := effectiveURIs (RepoListOptions.URIs opt)) in *.
  revert Hn;
  split_listQuery opt p;
  intros Hn H; injection H as <- <-;
  try (specialize (Hn _ _ eq_refl));
  normalize_args; cbn [forallb pg.condBound];
  rewrite ?length_seq, ?Hu, ?Hn;
  rewrite <- ?(length_map ArgString uris);
  lookups; cbn [negb andb];
  (split; [reflexivity|]);
  first
    [ now apply String.eqb_eq in Hp
    | apply String.eqb_neq in Hp; (split; [exact Hp|]); split;
      [ rewrite ?Nat.add_succ_r, ?Nat.add_0_r; reflexivity | reflexivity ] ].
Qed.

Lemma lookup_sortKeyToColumn (k : string) :
  supportedSort k
  = (k =? "") || match lookup sortKeyToColumn k with
                 | Some _ => true
                 | None => false
                 end.
Proof.
  unfold supportedSort, sortKeyToColumn. cbn [existsb lookup].
  rewrite !(String.eqb_sym k).
  destruct ("" =? k); [reflexivity|].
  destruct ("uri" =? k); [now rewrite !orb_true_r|].
  destruct ("path" =? k); [reflexivity|].
  destruct ("name" =? k); [reflexivity|].
  destruct ("created" =? k); [reflexivity|].
  destruct ("updated" =? k); [reflexivity|].
  destruct ("pushed" =? k); reflexivity.
Qed.

(** The outcome of the builder, by the validity of the options. *)
Theorem listQuery_outcome (opt : RepoListOptions.t) :
  match listQuery opt with
  | Ok _ =>
      supportedType (RepoListOptions.Type_ opt) = true
      /\ RepoListOptions.Owner opt = ""
      /\ supportedSort (RepoListOptions.Sort opt) = true
      /\ supportedDirection (RepoListOptions.Direction opt) = true
  | Err (InvalidArgument msg) =>
      (supportedType (RepoListOptions.Type_ opt) = false
       /\ msg = "invalid state")
      \/ (supportedType (RepoListOptions.Type_ opt) = true
          /\ RepoListOptions.Owner opt = ""
          /\ supportedSort (RepoListOptions.Sort opt) = false
          /\ msg = "invalid sort: " ++ RepoListOptions.Sort opt)
      \/ (supportedType (RepoListOptions.Type_ opt) = true
          /\ RepoListOptions.Owner opt = ""
          /\ supportedSort (RepoListOptions.Sort opt) = true
          /\ supportedDirection (RepoListOptions.Direction opt) = false
          /\ msg = "invalid direction: " ++ RepoListOptions.Direction opt)
  | Err errOptionsSpecifyEmptyResult =>
      supportedType (RepoListOptions.Type_ opt) = true
      /\ RepoListOptions.Owner opt <> ""
  | Err _ => False
  end.
Proof.
  unfold listQuery. cbv zeta.
  rewrite (lookup_sortKeyToColumn (RepoListOptions.Sort opt)).
  unfold supportedType, supportedDirection. cbn [existsb].
  rewrite orb_false_r.
  destruct (RepoListOptions.NoFork opt);
  destruct (0 <? List.length (RepoListOptions.URIs opt))%nat;
  destruct (negb (RepoListOptions.Name opt =? ""));
  destruct (1 <=? List.length (strings.Fields (RepoListOptions.Query opt)))%nat;
  (destruct (RepoListOptions.Type_ opt =? "private");
   [ | destruct (RepoListOptions.Type_ opt =? "public");
       [ | destruct (RepoListOptions.Type_ opt =? "");
           [ | destruct (RepoListOptions.Type_ opt =? "all") ] ] ]);
  cbn [bind orb];
  rewrite ?orb_true_r;
  try (left; split; reflexivity);
  (destruct (RepoListOptions.Owner opt =? "") eqn:Ho;
   [ apply String.eqb_eq in Ho | apply String.eqb_neq in Ho ];
   cbn [negb]; [ | split; [reflexivity | exact Ho] ]);
  match goal with
  | |- context [negb (?p =? "")] => destruct (negb (p =? ""))
  end;
  (destruct (RepoListOptions.Sort opt =? "") eqn:Hs;
   [ cbn [lookup sortKeyToColumn String.eqb Ascii.eqb Bool.eqb]
   | destruct (lookup sortKeyToColumn (RepoListOptions.Sort opt));
     [ | right; left; cbn [orb]; repeat split; assumption ] ]);
  cbn [orb];
  (destruct (RepoListOptions.Direction opt =? "") eqn:Hd;
   [ cbn [String.eqb Ascii.eqb Bool.eqb negb andb orb]
   | destruct (RepoListOptions.Direction opt =? "asc");
     [ | destruct (RepoListOptions.Direction opt =? "desc") ] ]);
  cbn [negb andb orb];
  try (repeat split; assumption);
  right; right; repeat split; assumption.
Qed.

(** The predicate the builder produces always starts with the
    conjunct [(NOT blocked)]. *)
Theorem listQuery_not_blocked (opt : RepoListOptions.t) (q : selectStmt)
  (args : list sqlarg) :
  listQuery opt = Ok (q, args) ->
  exists cs, sel_where q = NotBlocked :: cs.
Proof.
  unfold listQuery. cbv zeta.
  set (p := strings.ToLower (strings.ToLower
              (strings.Join (strings.Fields (RepoListOptions.Query opt)) "/"))).
  set (p0 := strings.ToLower
               (strings.Join (strings.Fields (RepoListOptions.Query opt)) "/")).
  destruct (RepoListOptions.Type_ opt =? "private");
  [ | destruct (RepoListOptions.Type_ opt =? "public");
      [ | destruct ((RepoListOptions.Type_ opt =? "")
                    || (RepoListOptions.Type_ opt =? "all")) ] ];
  destruct (RepoListOptions.NoFork opt);
  destruct (0 <? List.length (RepoListOptions.URIs opt))%nat;
  destruct (negb (RepoListOptions.Name opt =? ""));
  destruct (1 <=? List.length (strings.Fields (RepoListOptions.Query opt)))%nat;
  cbn [bind]; try discriminate;
  (destruct (negb (RepoListOptions.Owner opt =? "")); [discriminate|]);
  (destruct (negb (_ =? "")));
  (destruct (lookup sortKeyToColumn _); [|discriminate]);
  (destruct (negb _ && negb _); [discriminate|]);
  intros H; injection H as <- <-; cbn [sel_where appendTo app];
  eexists; reflexivity.
Qed.

Lemma whereText_not_blocked (cs : list cond) :
  exists rest, whereText (NotBlocked :: cs) = "((NOT blocked))" ++ rest.
Proof.
  unfold whereText, strings.Join. cbn [map condText String.concat].
  destruct (map condText cs) as [|c cs'].
  - exists "". reflexivity.
  - eexists. cbn. reflexivity.
Qed.

Theorem listQuery_uris (opt : RepoListOptions.t) (q : selectStmt)
  (args : list sqlarg) :
  RepoListOptions.URIs opt <> [] ->
  listQuery opt = Ok (q, args) ->
  exists cs rest,
    sel_where q
    = ((NotBlocked :: (if RepoListOptions.NoFork opt then [NotFork] else []))
       ++ UriIn (seq 0 (List.length (effectiveURIs (RepoListOptions.URIs opt))))
       :: cs)%list
    /\ args = (map ArgString (effectiveURIs (RepoListOptions.URIs opt)) ++ rest)%list.
Proof.
  unfold listQuery. cbv zeta.
  set (uris := effectiveURIs (RepoListOptions.URIs opt)).
  destruct (RepoListOptions.URIs opt) as [|u0 us0]; [congruence|]. intros _.
  destruct (RepoListOptions.Type_ opt =? "private");
  [ | destruct (RepoListOptions.Type_ opt =? "public");
      [ | destruct ((RepoListOptions.Type_ opt =? "")
                    || (RepoListOptions.Type_ opt =? "all")) ] ];
  destruct (RepoListOptions.NoFork opt);
  destruct (negb (RepoListOptions.Name opt =? ""));
  destruct (strings.Fields (RepoListOptions.Query opt)) as [|t0 ts0];
  cbn [bind List.length Nat.ltb Nat.leb]; try discriminate;
  (destruct (negb (RepoListOptions.Owner opt =? "")); [discriminate|]);
  (destruct (negb (_ =? "")));
  (destruct (lookup sortKeyToColumn _); [|discriminate]);
  (destruct (negb _ && negb _); [discriminate|]);
  intros H; injection H as <- <-;
  unfold appendTo; cbn [sel_where app List.length];
  rewrite <- ?app_assoc; cbn [app];
  eexists; eexists; (split; [reflexivity|]);
  first [reflexivity | symmetry; apply app_nil_r].
Qed.

(** The sort column and direction of the statement are those the
    options ask for, the identifier column and ascending by default. *)
Theorem listQuery_order (opt : RepoListOptions.t) (q : selectStmt)
  (args : list sqlarg) :
  listQuery opt = Ok (q, args) ->
  lookup sortKeyToColumn
    (if RepoListOptions.Sort opt =? "" then "uri" else RepoListOptions.Sort opt)
  = Some (sel_sort q)
  /\ directionText (sel_dir q)
     = (if RepoListOptions.Direction opt =? "" then "asc"
        else RepoListOptions.Direction opt)
  /\ sel_page q = None.
Proof.
  unfold listQuery. cbv zeta.
  destruct (RepoListOptions.Type_ opt =? "private");
  [ | destruct (RepoListOptions.Type_ opt =? "public");
      [ | destruct ((RepoListOptions.Type_ opt =? "")
                    || (RepoListOptions.Type_ opt =? "all")) ] ];
  destruct (RepoListOptions.NoFork opt);
  destruct (0 <? List.length (RepoListOptions.URIs opt))%nat;
  destruct (negb (RepoListOptions.Name opt =? ""));
  destruct (1 <=? List.length (strings.Fields (RepoListOptions.Query opt)))%nat;
  cbn [bind]; try discriminate;
  (destruct (negb (RepoListOptions.Owner opt =? "")); [discriminate|]);
  (destruct (negb (_ =? "")));
  (destruct (lookup sortKeyToColumn _); [|discriminate]);
  (destruct (RepoListOptions.Direction opt =? "") eqn:Hd0;
   [ cbn [String.eqb Ascii.eqb Bool.eqb negb andb]
   | destruct (RepoListOptions.Direction opt =? "asc") eqn:Hd1;
     [ apply String.eqb_eq in Hd1
     | destruct (RepoListOptions.Direction opt =? "desc") eqn:Hd2;
       [ apply String.eqb_eq in Hd2 | ] ] ]);
  cbn [negb andb]; try discriminate;
  intros H; injection H as <- <-; cbn [sel_sort sel_dir sel_page directionText];
  auto.
Qed.


(** The statement [List] hands to the handle reads as the text of
    [listSQL] followed by the [LIMIT] and [OFFSET] placeholders, as in
    the source. *)
Theorem List_text (opt : RepoListOptions.t) (q : selectStmt)
  (args : list sqlarg) :
  listQuery opt = Ok (q, args) ->
  exists sql,
    listSQL opt = Ok (sql, args)
    /\ sqlText (SelectRepos (pagedQuery q args))
       = Some (sql ++ " LIMIT " ++ BindVar (List.length args)
               ++ " OFFSET " ++ BindVar (S (List.length args))).
Proof.
  intros E. exists (selectText q). split.
  - rewrite listSQL_listQuery, E. reflexivity.
  - destruct (listQuery_order opt q args E) as (_ & _ & Hp).
    unfold sqlText, selectText, pagedQuery, withPage.
    cbn [sel_where sel_tiebreak sel_sort sel_dir sel_page]. rewrite Hp.
    rewrite !append_assoc. reflexivity.
Qed.

(** ** The rows a select returns *)

Lemma insertBy_perm {A : Type} (leb : A -> A -> bool) (x : A) (l : list A) :
  Permutation (x :: l) (pg.insertBy leb x l).
Proof.
  induction l as [|y l IH]; simpl; [apply Permutation_refl|].
  destruct (leb x y); [apply Permutation_refl|].
  eapply perm_trans; [apply perm_swap|]. now apply perm_skip.
Qed.

Lemma sortBy_perm {A : Type} (leb : A -> A -> bool) (l : list A) :
  Permutation l (pg.sortBy leb l).
Proof.
  induction l as [|x l IH]; simpl; [apply perm_nil|].
  eapply perm_trans; [apply perm_skip, IH | apply insertBy_perm].
Qed.

(** Every row a select returns is a row of the table that satisfies
    the [WHERE] clause. *)
Lemma selectRows_In (rows : list dbRepo.t) (q : selectStmt)
  (args : list sqlarg) (r : dbRepo.t) :
  In r (pg.selectRows rows q args) ->
  In r rows /\ pg.whereHolds args (sel_where q) r = true.
Proof.
  unfold pg.selectRows. intros H.
  apply filter_In.
  eapply Permutation_in; [apply Permutation_sym, sortBy_perm|].
  destruct (sel_page q) as [[l o]|]; [|exact H].
  eapply In_skipn, In_firstn, H.
Qed.

Section Sorting.
Context {A : Type} (leb : A -> A -> bool).
Hypothesis leb_total : forall x y, leb x y = false -> leb y x = true.

Let R (x y : A) : Prop := leb x y = true.

Lemma insertBy_HdRel (a x : A) (l : list A) :
  R a x -> HdRel R a l -> HdRel R a (pg.insertBy leb x l).
Proof.
  intros Hax Hl. destruct l as [|y l]; cbn.
  - now constructor.
  - destruct (leb x y); constructor; [exact Hax|].
    now inversion Hl.
Qed.

Lemma insertBy_sorted (x : A) (l : list A) :
  Sorted R l -> Sorted R (pg.insertBy leb x l).
Proof.
  induction 1 as [|y l Hs IH Hh]; cbn.
  - repeat constructor.
  - destruct (leb x y) eqn:E.
    + constructor; [now constructor|]. now constructor.
    + constructor; [exact IH|].
      apply insertBy_HdRel; [|exact Hh]. now apply leb_total.
Qed.

Lemma sortBy_sorted (l : list A) : Sorted R (pg.sortBy leb l).
Proof.
  induction l as [|x l IH]; cbn; [constructor|].
  now apply insertBy_sorted.
Qed.
End Sorting.

Lemma Sorted_skipn {A : Type} (R : A -> A -> Prop) (n : nat) (l : list A) :
  Sorted R l -> Sorted R (skipn n l).
Proof.
  revert l. induction n as [|n IH]; intros l H; [exact H|].
  destruct l as [|x l]; [constructor|]. cbn. apply IH. now inversion H.
Qed.

Lemma Sorted_firstn {A : Type} (R : A -> A -> Prop) (n : nat) (l : list A) :
  Sorted R l -> Sorted R (firstn n l).
Proof.
  revert l. induction n as [|n IH]; intros l H; [constructor|].
  destruct l as [|x l]; [constructor|]. cbn.
  inversion H as [|? ? Hs Hh]; subst. constructor; [now apply IH|].
  destruct n; [constructor|]. destruct l; cbn; [constructor|].
  constructor. now inversion Hh.
Qed.

Lemma Sorted_map {A B : Type} (R : A -> A -> Prop) (R' : B -> B -> Prop)
  (f : A -> B) (l : list A) :
  (forall a b, R a b -> R' (f a) (f b)) ->
  Sorted R l -> Sorted R' (map f l).
Proof.
  intros Hf. induction 1 as [|x l Hs IH Hh]; cbn; constructor; [exact IH|].
  destruct Hh; cbn; constructor. now apply Hf.
Qed.

Lemma timeCompare_antisym (a b : time.Time) :
  pg.timeCompare b a = CompOpp (pg.timeCompare a b).
Proof.
  unfold pg.timeCompare.
  rewrite (Z.compare_antisym (time.sec a) (time.sec b)).
  rewrite (Z.compare_antisym (time.nsec a) (time.nsec b)).
  destruct (time.sec a ?= time.sec b)%Z; reflexivity.
Qed.

Lemma columnCompare_antisym (c : column) (d : direction) (x y : dbRepo.t) :
  pg.columnCompare c d y x = CompOpp (pg.columnCompare c d x y).
Proof.
  unfold pg.columnCompare, pg.nullsLast, pg.directed.
  destruct c.
  - rewrite (String.compare_antisym (pg.lower (dbRepo.URI x))).
    destruct d; cbn; now rewrite ?CompOpp_involutive.
  - rewrite (String.compare_antisym (dbRepo.Name x)).
    destruct d; cbn; now rewrite ?CompOpp_involutive.
  - rewrite (timeCompare_antisym (dbRepo.CreatedAt x)).
    destruct d; cbn; now rewrite ?CompOpp_involutive.
  - destruct (dbRepo.UpdatedAt x) as [tx|], (dbRepo.UpdatedAt y) as [ty|];
      try reflexivity.
    rewrite (timeCompare_antisym tx).
    destruct d; cbn; now rewrite ?CompOpp_involutive.
  - destruct (dbRepo.PushedAt x) as [tx|], (dbRepo.PushedAt y) as [ty|];
      try reflexivity.
    rewrite (timeCompare_antisym tx).
    destruct d; cbn; now rewrite ?CompOpp_involutive.
Qed.

Lemma rowCompare_antisym (q : selectStmt) (args : list sqlarg) (x y : dbRepo.t) :
  pg.rowCompare q args y x = CompOpp (pg.rowCompare q args x y).
Proof.
  unfold pg.rowCompare.
  rewrite (columnCompare_antisym _ _ x y).
  destruct (sel_tiebreak q) as [v|]; [|reflexivity].
  destruct (pg.lower (dbRepo.Name x) =? pg.argText args v),
           (pg.lower (dbRepo.Name y) =? pg.argText args v); reflexivity.
Qed.

Lemma rowLeb_total (q : selectStmt) (args : list sqlarg) (x y : dbRepo.t) :
  pg.rowLeb q args x y = false -> pg.rowLeb q args y x = true.
Proof.
  unfold pg.rowLeb. rewrite (rowCompare_antisym q args x y).
  destruct (pg.rowCompare q args x y); cbn; congruence.
Qed.

(** The rows a select returns are in the order of its [ORDER BY]
    clause. *)
Theorem selectRows_sorted (rows : list dbRepo.t) (q : selectStmt)
  (args : list sqlarg) :
  Sorted (fun x y => pg.rowLeb q args x y = true) (pg.selectRows rows q args).
Proof.
  unfold pg.selectRows.
  assert (S : Sorted (fun x y => pg.rowLeb q args x y = true)
                (pg.sortBy (pg.rowLeb q args)
                   (filter (pg.whereHolds args (sel_where q)) rows))).
  { apply sortBy_sorted, rowLeb_total. }
  destruct (sel_page q) as [[l o]|]; [|exact S].
  now apply Sorted_firstn, Sorted_skipn.
Qed.

(** ** Running [List] *)

Lemma List_unfold (D : Z) (o : option RepoListOptions.t) (h : handle) :
  List D o h
  = match listQuery (optOrZero o) with
    | Err errOptionsSpecifyEmptyResult => (h, Ok [])
    | Err e => (h, Err e)
    | Ok (q, args) =>
        let q' := pagedQuery q args in
        let args' := pagedArgs D (optOrZero o) args in
        (issued h (SelectRepos q') args',
         match faults h with
         | Some msg :: _ => Err (ExecutionFailure msg)
         | _ =>
             if pg.selectBound args' q'
             then Ok (toRepos (pg.selectRows (table h) q' args'))
             else Err (ExecutionFailure "bind")
         end)
    end.
Proof.
  unfold List. fold (optOrZero o).
  destruct (listQuery (optOrZero o)) as [[q args]|e].
  - unfold query, Select, bindM, issue, ret, pagedQuery, pagedArgs, issued.
    cbv zeta. rewrite !length_appendTo, !appendTo_twice.
    destruct (faults h) as [|[msg|] fs]; cbn [table];
      try reflexivity;
      destruct (pg.selectBound _ _); reflexivity.
  - destruct e; reflexivity.
Qed.

Lemma whereHolds_paged (D : Z) (opt : RepoListOptions.t) (q : selectStmt)
  (args : list sqlarg) (r : dbRepo.t) :
  listQuery opt = Ok (q, args) ->
  pg.whereHolds (pagedArgs D opt args) (sel_where (pagedQuery q args)) r
  = admits opt r.
Proof.
  intros H. unfold pagedArgs, pagedQuery, withPage. cbn [sel_where].
  now apply listQuery_where.
Qed.

(** Every record that [List] returns is the image of a row of the
    table that the options admit. *)
Lemma listed_In (D : Z) (o : option RepoListOptions.t) (h : handle) (r : Repo.t) :
  In r (listed D o h) ->
  exists q args row,
    listQuery (optOrZero o) = Ok (q, args)
    /\ In row (table h) /\ r = toRepo row
    /\ admits (optOrZero o) row = true.
Proof.
  unfold listed. rewrite List_unfold.
  destruct (listQuery (optOrZero o)) as [[q args]|e] eqn:E.
  - cbv zeta. cbn [snd]. intros H. exists q, args.
    assert (G : In r (toRepos (pg.selectRows (table h) (pagedQuery q args)
                                 (pagedArgs D (optOrZero o) args)))).
    { destruct (faults h) as [|[msg|] fs]; try contradiction;
        destruct (pg.selectBound _ _); try contradiction; exact H. }
    apply in_map_iff in G as (row & <- & G).
    apply selectRows_In in G as [G1 G2].
    rewrite (whereHolds_paged D _ _ _ _ E) in G2.
    exists row. auto.
  - destruct e; cbn [snd]; contradiction.
Qed.

Lemma listed_cases (D : Z) (o : option RepoListOptions.t) (h : handle) :
  listed D o h = []
  \/ exists q args,
       listQuery (optOrZero o) = Ok (q, args)
       /\ listed D o h
          = toRepos (pg.selectRows (table h) (pagedQuery q args)
                       (pagedArgs D (optOrZero o) args)).
Proof.
  unfold listed. rewrite List_unfold.
  destruct (listQuery (optOrZero o)) as [[q args]|e].
  - cbv zeta. cbn [snd].
    destruct (faults h) as [|[msg|] fs]; auto;
      (destruct (pg.selectBound _ _); [right; exists q, args; auto | auto]).
  - left. destruct e; reflexivity.
Qed.

Lemma pagedArgs_limit (D : Z) (opt : RepoListOptions.t) (args : list sqlarg) :
  nth_error (pagedArgs D opt args) (List.length args)
  = Some (ArgInt (PerPageOrDefault D opt)).
Proof. unfold pagedArgs. now rewrite nth_error_at0. Qed.

Lemma pagedArgs_offset (D : Z) (opt : RepoListOptions.t) (args : list sqlarg) :
  nth_error (pagedArgs D opt args) (S (List.length args))
  = Some (ArgInt (Offset D opt)).
Proof.
  unfold pagedArgs. rewrite <- Nat.add_1_r. now rewrite nth_error_at.
Qed.

(** What [List] returns on a handle that does not fail, when the page
    size and the offset are not negative. *)
Theorem List_run (D : Z) (opt : RepoListOptions.t) (h : handle)
  (q : selectStmt) (args : list sqlarg) :
  (0 <= PerPageOrDefault D opt)%Z ->
  (0 <= Offset D opt)%Z ->
  faults h = [] ->
  listQuery opt = Ok (q, args) ->
  snd (List D (Some opt) h)
  = Ok (toRepos
          (firstn (Z.to_nat (PerPageOrDefault D opt))
             (skipn (Z.to_nat (Offset D opt))
                (pg.sortBy (pg.rowLeb (pagedQuery q args) (pagedArgs D opt args))
                   (filter (admits opt) (table h)))))).
Proof.
  intros HL HO Hf E. rewrite List_unfold. cbn [optOrZero]. rewrite E, Hf.
  cbv zeta. cbn [snd].
  assert (B : pg.selectBound (pagedArgs D opt args) (pagedQuery q args) = true).
  { destruct (listQuery_bound _ _ _
                [ArgInt (PerPageOrDefault D opt); ArgInt (Offset D opt)] E)
      as [B1 B2].
    unfold pg.selectBound. fold (pagedArgs D opt args) in B1, B2.
    unfold pagedQuery, withPage. cbn [sel_where sel_tiebreak sel_page].
    rewrite B1. cbn [andb].
    unfold pg.isCountArg.
    rewrite (pagedArgs_limit D opt args), (pagedArgs_offset D opt args).
    apply Z.leb_le in HL, HO. rewrite HL, HO, andb_true_r.
    destruct (sel_tiebreak q) as [v|]; [|reflexivity].
    destruct B2 as (_ & _ & Hv). unfold pg.isStringArg. now rewrite Hv. }
  rewrite B. f_equal. f_equal.
  unfold pg.selectRows.
  change (sel_page (pagedQuery q args))
    with (Some (List.length args, S (List.length args))).
  cbv iota beta.
  unfold pg.argInt. rewrite (pagedArgs_limit D opt args), (pagedArgs_offset D opt args).
  change (sel_where (pagedQuery q args)) with (sel_where q).
  f_equal. f_equal. f_equal.
  apply filter_ext. intros r. now apply listQuery_where.
Qed.

Lemma admits_not_blocked (opt : RepoListOptions.t) (r : dbRepo.t) :
  admits opt r = true -> dbRepo.Blocked r = false.
Proof.
  unfold admits. rewrite !andb_true_iff. intros [[[[[H _] _] _] _] _].
  now apply negb_true_iff.
Qed.

Lemma admits_uris (opt : RepoListOptions.t) (r : dbRepo.t) :
  RepoListOptions.URIs opt <> [] ->
  admits opt r = true ->
  existsb (pg.citextEqb (dbRepo.URI r)) (effectiveURIs (RepoListOptions.URIs opt))
  = true.
Proof.
  unfold admits. intros Hne.
  destruct (RepoListOptions.URIs opt); [congruence|].
  rewrite !andb_true_iff. tauto.
Qed.




(** ** Patterns without wild cards *)







(** ** Running [Update] *)


(** [Update] issues [updateStatements], and nothing else. *)
Theorem Update_execAll (op : RepoUpdate.t) (h : handle) :
  Update op h = execAll (updateStatements op) h.
Proof.
  unfold Update, updateStatements.
  destruct (RepoUpdate.Description op =? "");
  destruct (RepoUpdate.Language op =? "");
  destruct (RepoUpdate.UpdatedAt op);
  destruct (RepoUpdate.PushedAt op);
  cbn [negb app execAll]; unfold bindM, ret;
  repeat match goal with
         | |- context [Exec ?s ?a ?h0] =>
             destruct (Exec s a h0) as [? [[]|?]]
         end;
  reflexivity.
Qed.

Lemma Exec_unfold (s : statement) (args : list sqlarg) (h : handle) :
  Exec s args h
  = match faults h with
    | Some msg :: _ => (issued h s args, Err (ExecutionFailure msg))
    | _ =>
        match pg.applyWrite (table h) s args with
        | Some rows =>
            ({| table := rows;
                faults := tl (faults h);
                journal := appendTo (journal h) (s, args) |}, Ok tt)
        | None => (issued h s args, Err (ExecutionFailure "statement"))
        end
    end.
Proof.
  unfold Exec, bindM, issue, issued.
  destruct (faults h) as [|[msg|] fs]; cbn [table faults journal];
    try reflexivity; destruct (pg.applyWrite _ _ _); reflexivity.
Qed.

Lemma Exec_preserves {B : Type} (pi : dbRepo.t -> B)
  (s : statement) (args : list sqlarg) (h : handle) :
  preserves pi (s, args) ->
  map pi (table (fst (Exec s args h))) = map pi (table h).
Proof.
  intros P. rewrite Exec_unfold.
  destruct (faults h) as [|[msg|] fs]; cbn [fst table issued]; try reflexivity;
    destruct (pg.applyWrite (table h) s args) eqn:E; cbn [fst table issued];
    try reflexivity; apply (P _ _ E).
Qed.

Lemma execAll_preserves {B : Type} (pi : dbRepo.t -> B)
  (stmts : list (statement * list sqlarg)) : forall h : handle,
  Forall (preserves pi) stmts ->
  map pi (table (fst (execAll stmts h))) = map pi (table h).
Proof.
  induction stmts as [|[s a] stmts IH]; intros h F; [reflexivity|].
  inversion F as [|? ? P F']; subst.
  cbn [execAll]. unfold bindM.
  pose proof (Exec_preserves pi s a h P) as E.
  destruct (Exec s a h) as [h1 [[]|e]]; cbn [fst] in *.
  - now rewrite IH.
  - exact E.
Qed.











(** ** The free-text filter (C1) *)




(** ** Blocked records (C2) *)

(** C2.  Whatever the options, the predicate the builder produces has
    the conjunct [(NOT blocked)], first in the [WHERE] clause, so that
    only rows that are not blocked satisfy it; and no record returned
    by [List] is blocked, whatever the other options, the page, the
    table and the handle are. *)
Theorem list_excludes_blocked (D : Z) (o : option RepoListOptions.t)
  (h : handle) :
  (forall (q : selectStmt) (args : list sqlarg),
      listQuery (optOrZero o) = Ok (q, args) ->
      (exists cs, sel_where q = NotBlocked :: cs)
      /\ (exists rest,
             listSQL (optOrZero o)
             = Ok ("SELECT repo.* FROM repo WHERE ((NOT blocked))" ++ rest, args))
      /\ forall row : dbRepo.t,
           pg.whereHolds args (sel_where q) row = true ->
           dbRepo.Blocked row = false)
  /\ forall r : Repo.t, In r (listed D o h) -> Repo.Blocked r = false.
Proof.
  split.
  - intros q args E.
    destruct (listQuery_not_blocked _ _ _ E) as [cs Hcs].
    split; [now exists cs|]. split.
    + destruct (whereText_not_blocked cs) as [rest Hrest].
      eexists. rewrite listSQL_listQuery, E. unfold selectText.
      rewrite Hcs, Hrest, append_assoc. reflexivity.
    + intros row W. rewrite Hcs in W. cbn [pg.whereHolds forallb] in W.
      apply andb_prop in W as [W _]. now apply negb_true_iff in W.
  - intros r H. apply listed_In in H as (q & args & row & _ & _ & -> & A).
    cbn. now apply admits_not_blocked in A.
Qed.

(** An instance: of a blocked and an unblocked row, [List] returns the
    unblocked one. *)
Lemma list_excludes_blocked_witness :
  In (toRepo (rowOf "a/b" "b" false))
    (listed 10 None (handleOn [rowOf "x/y" "y" true; rowOf "a/b" "b" false]))
  /\ Repo.Blocked (toRepo (rowOf "a/b" "b" false)) = false
  /\ listed 10 None (handleOn [rowOf "x/y" "y" true; rowOf "a/b" "b" false])
     = [toRepo (rowOf "a/b" "b" false)].
Proof.
  assert (H : In (toRepo (rowOf "a/b" "b" false))
                (listed 10 None
                   (handleOn [rowOf "x/y" "y" true; rowOf "a/b" "b" false])))
    by (left; reflexivity).
  split; [exact H|]. split; [|reflexivity].
  exact (proj2 (list_excludes_blocked 10 None _) _ H).
Defined.

(** ** Invalid options (C3) *)

(** C3, as stated, fails: with an owner set, an unsupported sort key
    does not make [List] fail; the result is empty and there is no
    error. *)
Lemma list_invalid_argument_counterexample :
  supportedSort (RepoListOptions.Sort optOwnerBadSort) = false
  /\ List 10 (Some optOwnerBadSort) emptyHandle = (emptyHandle, Ok []).
Proof. split; reflexivity. Qed.

(** C3, amended.  [List] fails with [InvalidArgument] exactly when the
    visibility value is unsupported, or the owner is empty and the
    sort key or the sort direction is unsupported. *)
Theorem list_invalid_argument (D : Z) (o : option RepoListOptions.t) (h : handle) :
  (exists msg, snd (List D o h) = Err (InvalidArgument msg))
  <-> supportedType (RepoListOptions.Type_ (optOrZero o)) = false
      \/ (RepoListOptions.Owner (optOrZero o) = ""
          /\ (supportedSort (RepoListOptions.Sort (optOrZero o)) = false
              \/ supportedDirection (RepoListOptions.Direction (optOrZero o)) = false)).
Proof.
  rewrite List_unfold.
  pose proof (listQuery_outcome (optOrZero o)) as O.
  destruct (listQuery (optOrZero o)) as [[q args]|e].
  - destruct O as (T & W & S & Dr). cbv zeta. cbn [snd]. split.
    + intros [msg H].
      destruct (faults h) as [|[m|] fs]; try discriminate;
        destruct (pg.selectBound _ _); discriminate.
    + intros [F|[_ [F|F]]]; congruence.
  - destruct e; try contradiction; cbn [snd].
    + split.
      * intros _. destruct O as [[T _]|[(T & W & S & _)|(T & W & S & Dr & _)]]; auto.
      * intros _. eexists; reflexivity.
    + destruct O as [T W]. split.
      * intros [msg H]; discriminate.
      * intros [F|[F _]]; congruence.
Qed.

(** ** The owner filter (C4) *)

(** C4, as stated, fails: with an owner set, an unsupported visibility
    value makes [List] fail with [InvalidArgument]. *)
Lemma list_owner_counterexample :
  RepoListOptions.Owner optOwnerBadType <> ""
  /\ List 10 (Some optOwnerBadType) emptyHandle
     = (emptyHandle, Err (InvalidArgument "invalid state")).
Proof. split; [discriminate | reflexivity]. Qed.

(** C4, amended.  With a non-empty owner and a supported visibility
    value, [List] returns the empty result with no error, whatever the
    other options are, and the handle is not used. *)
Theorem list_owner_empty_result (D : Z) (opt : RepoListOptions.t) (h : handle) :
  RepoListOptions.Owner opt <> "" ->
  supportedType (RepoListOptions.Type_ opt) = true ->
  List D (Some opt) h = (h, Ok []).
Proof.
  intros W T. rewrite List_unfold. cbn [optOrZero].
  pose proof (listQuery_outcome opt) as O.
  destruct (listQuery opt) as [[q args]|e].
  - destruct O as (_ & W' & _). contradiction.
  - destruct e; try contradiction; [|reflexivity].
    destruct O as [[T' _]|[(_ & W' & _)|(_ & W' & _)]]; congruence.
Qed.

(** An instance: the owner [alice] and nothing else. *)
Lemma list_owner_empty_result_witness :
  RepoListOptions.Owner optOwner <> ""
  /\ supportedType (RepoListOptions.Type_ optOwner) = true
  /\ List 10 (Some optOwner) emptyHandle = (emptyHandle, Ok []).
Proof.
  split; [discriminate|]. split; [reflexivity|].
  apply (list_owner_empty_result 10 optOwner emptyHandle);
    [discriminate | reflexivity].
Defined.

(** ** The identifiers filter (C5) *)

(** C5, as stated, fails: a single supplied identifier that holds a
    comma is split and bound as several parameters; and membership is
    decided by the identifier column, without regard to case. *)
Lemma list_identifiers_counterexample :
  listSQL (optURIs ["a,b"])
  = Ok ("SELECT repo.* FROM repo WHERE ((NOT blocked)) AND (uri IN ($1,$2)) ORDER BY repo.uri asc NULLS LAST",
        [ArgString "a"; ArgString "b"])
  /\ listed 10 (Some (optURIs ["Foo/Bar"])) (handleOn [rowOf "foo/bar" "bar" false])
     = [toRepo (rowOf "foo/bar" "bar" false)].
Proof. split; reflexivity. Qed.

(** C5, amended.  For a non-empty identifiers list the builder adds
    the condition [uri IN (...)] with one placeholder per bound
    identifier.  The bound identifiers are those supplied, unchanged
    and in order, except that a single supplied element holding a
    comma is split at the commas.  A row satisfies the condition
    exactly when its identifier equals one of the bound values under
    the comparison of the identifier column, which disregards case. *)
Theorem list_identifiers (opt : RepoListOptions.t) (q : selectStmt)
  (args : list sqlarg) (r : dbRepo.t) :
  RepoListOptions.URIs opt <> [] ->
  listQuery opt = Ok (q, args) ->
  let bound := effectiveURIs (RepoListOptions.URIs opt) in
  let c := UriIn (seq 0 (List.length bound)) in
  match RepoListOptions.URIs opt with
  | [u] => bound = if strings.Contains u "," then strings.Split u "," else [u]
  | us => bound = us
  end
  /\ In c (sel_where q)
  /\ condText c
     = "uri IN (" ++ strings.Join (map BindVar (seq 0 (List.length bound))) ","
       ++ ")"
  /\ firstn (List.length bound) args = map ArgString bound
  /\ pg.condHolds args r c = existsb (pg.citextEqb (dbRepo.URI r)) bound
  /\ forall (D : Z) (h : handle) (rec : Repo.t),
       In rec (listed D (Some opt) h) ->
       existsb (pg.citextEqb (Repo.URI rec)) bound = true.
Proof.
  intros Hne E bound c.
  destruct (listQuery_uris opt q args Hne E) as (cs & rest & Hw & Ha).
  fold bound in Hw, Ha.
  split; [|split; [|split; [|split; [|split]]]].
  - subst bound. unfold effectiveURIs.
    destruct (RepoListOptions.URIs opt) as [|u [|u' us]]; reflexivity.
  - rewrite Hw. apply in_or_app. right. now left.
  - reflexivity.
  - rewrite Ha, <- (length_map ArgString bound), firstn_app, Nat.sub_diag.
    rewrite firstn_all, firstn_0. apply app_nil_r.
  - subst c. cbn [pg.condHolds]. rewrite Ha.
    apply (argText_bound [] bound rest (pg.citextEqb (dbRepo.URI r))).
  - intros D h rec Hin.
    apply listed_In in Hin as (q' & args' & row & _ & _ & -> & A).
    cbn [optOrZero] in A. now apply admits_uris.
Qed.

(** An instance: the identifiers [a/b] and [C] are bound as given,
    and a row [c] satisfies the condition. *)
Lemma list_identifiers_witness :
  RepoListOptions.URIs (optURIs ["a/b"; "C"]) <> []
  /\ exists q args,
       listQuery (optURIs ["a/b"; "C"]) = Ok (q, args)
       /\ firstn 2 args = [ArgString "a/b"; ArgString "C"]
       /\ pg.condHolds args (rowOf "c" "c" false) (UriIn [0; 1]) = true.
Proof.
  split; [discriminate|].
  eexists. eexists. split; [reflexivity|].
  pose proof (list_identifiers (optURIs ["a/b"; "C"]) _ _ (rowOf "c" "c" false)
                ltac:(discriminate) eq_refl) as (_ & _ & _ & F & C & _).
  split; [exact F | exact C].
Defined.

(** ** The tie-break term (C6) *)




(** ** Creation of non-mirror records (C7) *)

(** C7.  A record that is not a mirror is rejected with
    [ErrRepoMirrorOnly], whatever its other fields are (clone URLs
    included), and the handle is left as it was: nothing is inserted
    and no statement is issued. *)
Theorem create_mirror_only (newRepo : Repo.t) (h : handle) :
  Repo.Mirror newRepo = false ->
  Create newRepo h = (h, Err ErrRepoMirrorOnly).
Proof.
  intros Hm. unfold Create. rewrite Hm. reflexivity.
Qed.

(** An instance: a non-mirror record with no clone URL. *)
Lemma create_mirror_only_witness :
  Repo.Mirror (repoOf "acme/widgets" false "") = false
  /\ Create (repoOf "acme/widgets" false "") emptyHandle
     = (emptyHandle, Err ErrRepoMirrorOnly).
Proof.
  split; [reflexivity|].
  apply (create_mirror_only (repoOf "acme/widgets" false "") emptyHandle).
  reflexivity.
Defined.

(** ** Update of the description alone (C8) *)



(** ** Empty and blank values in an update (C9) *)



(** ** The default order (C10) *)



(** ** The record mapper *)

(** X1.  Mapping a row to a record and back into a fresh row gives the
    row again (times being the instants they denote): no field is lost
    or altered by the record mapper, so two rows with the same record
    are the same row. *)
Theorem mapper_round_trip (r : dbRepo.t) :
  fromRepo dbRepo.zero (toRepo r) = r
  /\ forall r' : dbRepo.t, toRepo r = toRepo r' -> r = r'.
Proof.
  assert (R : forall x : dbRepo.t, fromRepo dbRepo.zero (toRepo x) = x).
  { intros [u o n d v hc sc hp db l b dp f m p [cs cn] ua pa].
    unfold fromRepo, toRepo. cbn.
    destruct ua as [[us un]|], pa as [[ps pn]|]; reflexivity. }
  split; [apply R|].
  intros r' E. rewrite <- (R r), <- (R r'). now rewrite E.
Qed.

(** ** [Get] *)

Lemma firstn_1_filter {A : Type} (f : A -> bool) (l : list A) :
  firstn 1 (filter f l)
  = match find f l with
    | Some x => [x]
    | None => []
    end.
Proof.
  induction l as [|x l IH]; [reflexivity|]. cbn [filter find].
  destruct (f x); [reflexivity | exact IH].
Qed.

Lemma SelectFirst_unfold (w : cond) (args : list sqlarg) (h : handle) :
  SelectFirst w args h
  = (issued h (SelectOne w) args,
     match faults h with
     | Some msg :: _ => Err (ExecutionFailure msg)
     | _ =>
         if pg.condBound args w
         then Ok (firstn 1 (filter (fun r => pg.condHolds args r w) (table h)))
         else Err (ExecutionFailure "bind")
     end).
Proof.
  unfold SelectFirst, bindM, issue, issued.
  destruct (faults h) as [|[msg|] fs]; cbn [table]; try reflexivity;
    destruct (pg.condBound args w); reflexivity.
Qed.

Lemma Get_unfold (uri : string) (h : handle) :
  Get uri h
  = (issued h (SelectOne (UriEq 0)) [ArgString uri],
     match faults h with
     | Some msg :: _ => Err (ExecutionFailure msg)
     | _ =>
         match firstMatch uri (table h) with
         | Some r => Ok (toRepo r)
         | None => Err (RepoNotFoundError uri)
         end
     end).
Proof.
  unfold Get, getByURI, getBySQL, bindM. rewrite SelectFirst_unfold.
  cbn [pg.condBound pg.isStringArg nth_error].
  rewrite firstn_1_filter. unfold firstMatch.
  cbn [pg.condHolds pg.argText nth_error].
  destruct (faults h) as [|[msg|] fs]; try reflexivity;
    destruct (find _ (table h)); reflexivity.
Qed.

(** X2.  [Get] issues the one statement
    [SELECT * FROM repo WHERE (uri=$1) LIMIT 1] with the identifier as
    its argument, and leaves the table as it is.  Unless the handle
    fails, it returns the first row of that identifier (compared
    without regard to case), and when there is none the not-found
    error that carries the requested identifier, never the
    placeholder of [getBySQL]. *)
Theorem get_outcome (uri : string) (h : handle) :
  issuedDuring (Get uri) h = [(SelectOne (UriEq 0), [ArgString uri])]
  /\ sqlText (SelectOne (UriEq 0)) = Some "SELECT * FROM repo WHERE (uri=$1) LIMIT 1"
  /\ table (fst (Get uri h)) = table h
  /\ snd (Get uri h)
     = match faults h with
       | Some msg :: _ => Err (ExecutionFailure msg)
       | _ =>
           match firstMatch uri (table h) with
           | Some r => Ok (toRepo r)
           | None => Err (RepoNotFoundError uri)
           end
       end.
Proof.
  unfold issuedDuring. rewrite Get_unfold. cbn [fst snd issued journal table].
  repeat split. unfold appendTo. apply skipn_app_length.
Qed.

(** ** [Create] *)

Lemma citextEqb_refl (a : string) : pg.citextEqb a a = true.
Proof. unfold pg.citextEqb. apply String.eqb_refl. Qed.

Lemma citextEqb_trans_l (a b c : string) :
  pg.citextEqb a b = true -> pg.citextEqb a c = pg.citextEqb b c.
Proof.
  unfold pg.citextEqb. intros H. apply String.eqb_eq in H. now rewrite H.
Qed.

Lemma existsb_find_none {A : Type} (f : A -> bool) (l : list A) :
  existsb f l = false <-> find f l = None.
Proof.
  induction l as [|x l IH]; cbn; [tauto|].
  destruct (f x); cbn; [split; discriminate | exact IH].
Qed.

Lemma find_app_none {A : Type} (f : A -> bool) (l l' : list A) :
  find f l = None -> find f (l ++ l') = find f l'.
Proof.
  induction l as [|x l IH]; cbn; [reflexivity|].
  destruct (f x); [discriminate | exact IH].
Qed.

Lemma createdRow_URI (newRepo : Repo.t) :
  dbRepo.URI (createdRow newRepo) = Repo.URI newRepo.
Proof.
  unfold createdRow. destruct (Repo.DefaultBranch newRepo =? ""); reflexivity.
Qed.

Lemma Insert_unfold (r : dbRepo.t) (h : handle) :
  Insert r h
  = match faults h with
    | Some msg :: _ => (issued h (InsertRepo r) [], Err (ExecutionFailure msg))
    | _ =>
        match firstMatch (dbRepo.URI r) (table h) with
        | None =>
            ({| table := (table h ++ [r])%list;
                faults := tl (faults h);
                journal := appendTo (journal h) (InsertRepo r, []) |}, Ok tt)
        | Some _ => (issued h (InsertRepo r) [], Err (ExecutionFailure "statement"))
        end
    end.
Proof.
  unfold Insert. rewrite Exec_unfold. cbn [pg.applyWrite]. unfold firstMatch.
  destruct (existsb _ (table h)) eqn:E.
  - destruct (find _ (table h)) eqn:F.
    + reflexivity.
    + apply existsb_find_none in F. congruence.
  - apply existsb_find_none in E. rewrite E. reflexivity.
Qed.

Lemma Create_unfold (newRepo : Repo.t) (h : handle) :
  Create newRepo h
  = if negb (Repo.Mirror newRepo) then (h, Err ErrRepoMirrorOnly)
    else if (Repo.HTTPCloneURL newRepo =? "") && (Repo.SSHCloneURL newRepo =? "")
    then (h, Err ErrRepoNeedsCloneURL)
    else
      match faults h with
      | Some msg :: _ =>
          (issued h (InsertRepo (createdRow newRepo)) [], Err (ExecutionFailure msg))
      | _ =>
          match firstMatch (Repo.URI newRepo) (table h) with
          | None =>
              ({| table := (table h ++ [createdRow newRepo])%list;
                  faults := tl (faults h);
                  journal := appendTo (journal h)
                               (InsertRepo (createdRow newRepo), []) |},
               Ok (toRepo (createdRow newRepo)))
          | Some _ =>
              (issued h (InsertRepo (createdRow newRepo)) [],
               Err (ExecutionFailure "statement"))
          end
      end.
Proof.
  unfold Create.
  destruct (negb (Repo.Mirror newRepo)); [reflexivity|].
  destruct ((Repo.HTTPCloneURL newRepo =? "") && (Repo.SSHCloneURL newRepo =? ""));
    [reflexivity|].
  fold (createdRow newRepo). unfold bindM. rewrite Insert_unfold.
  rewrite createdRow_URI.
  destruct (faults h) as [|[msg|] fs]; try reflexivity;
    destruct (firstMatch _ (table h)); reflexivity.
Qed.

(** X3.  A mirror record without any clone URL is rejected with
    [ErrRepoNeedsCloneURL], whatever its other fields are, and the
    handle is left as it was: nothing is inserted and no statement is
    issued. *)
Theorem create_needs_clone_url (newRepo : Repo.t) (h : handle) :
  Repo.Mirror newRepo = true ->
  Repo.HTTPCloneURL newRepo = "" ->
  Repo.SSHCloneURL newRepo = "" ->
  Create newRepo h = (h, Err ErrRepoNeedsCloneURL).
Proof.
  intros Hm Hh Hs. unfold Create. rewrite Hm, Hh, Hs. reflexivity.
Qed.

Lemma create_needs_clone_url_witness :
  Repo.Mirror (repoOf "acme/widgets" true "") = true
  /\ Create (repoOf "acme/widgets" true "") emptyHandle
     = (emptyHandle, Err ErrRepoNeedsCloneURL).
Proof.
  split; [reflexivity|].
  apply (create_needs_clone_url (repoOf "acme/widgets" true "") emptyHandle);
    reflexivity.
Defined.


(** ** [Create], then [Get] *)

Lemma citextEqb_sym (a b : string) : pg.citextEqb a b = pg.citextEqb b a.
Proof. unfold pg.citextEqb. apply String.eqb_sym. Qed.

Lemma firstMatch_citext (a b : string) (rows : list dbRepo.t) :
  pg.citextEqb a b = true -> firstMatch a rows = firstMatch b rows.
Proof.
  intros U. unfold firstMatch. induction rows as [|x l IH]; [reflexivity|].
  cbn [find]. rewrite (citextEqb_sym _ a), (citextEqb_sym _ b).
  rewrite (citextEqb_trans_l _ _ _ U).
  destruct (pg.citextEqb b (dbRepo.URI x)); [reflexivity | exact IH].
Qed.

(** X5.  What [Create] returns, [Get] returns afterwards: after a
    successful [Create], [Get] with the identifier of the new record,
    in any case of letters, returns the record [Create] returned
    (unless the handle fails on that call). *)
Theorem create_then_get (newRepo : Repo.t) (h h1 : handle) (rec : Repo.t)
  (uri : string) :
  Create newRepo h = (h1, Ok rec) ->
  ready h1 ->
  pg.citextEqb (Repo.URI newRepo) uri = true ->
  snd (Get uri h1) = Ok rec.
Proof.
  rewrite Create_unfold. intros C R U.
  destruct (negb (Repo.Mirror newRepo)); [discriminate|].
  destruct (_ && _); [discriminate|].
  assert (F : firstMatch (Repo.URI newRepo) (table h) = None
              /\ table h1 = (table h ++ [createdRow newRepo])%list
              /\ rec = toRepo (createdRow newRepo)).
  { destruct (faults h) as [|[msg|] fs]; try discriminate;
      destruct (firstMatch _ (table h)); try discriminate;
      injection C as <- <-; auto. }
  destruct F as (F & T & ->).
  rewrite Get_unfold. cbn [snd]. unfold ready in R.
  assert (M : firstMatch uri (table h1) = Some (createdRow newRepo)).
  { rewrite T. rewrite (firstMatch_citext _ _ _ U) in F.
    unfold firstMatch in *. rewrite find_app_none by exact F.
    cbn [find]. rewrite createdRow_URI, U. reflexivity. }
  rewrite M. destruct (faults h1) as [|[msg|] fs];
    [reflexivity|contradiction|reflexivity].
Qed.

Lemma create_then_get_witness :
  Create (mirrorOf "Acme/Widgets" "widgets") emptyHandle
  = (fst (Create (mirrorOf "Acme/Widgets" "widgets") emptyHandle),
     Ok (toRepo (createdRow (mirrorOf "Acme/Widgets" "widgets"))))
  /\ ready (fst (Create (mirrorOf "Acme/Widgets" "widgets") emptyHandle))
  /\ pg.citextEqb "Acme/Widgets" "acme/widgets" = true
  /\ snd (Get "acme/widgets"
            (fst (Create (mirrorOf "Acme/Widgets" "widgets") emptyHandle)))
     = Ok (toRepo (createdRow (mirrorOf "Acme/Widgets" "widgets"))).
Proof.
  split; [reflexivity|]. split; [exact I|]. split; [reflexivity|].
  apply (create_then_get (mirrorOf "Acme/Widgets" "widgets") emptyHandle
           _ _ "acme/widgets" eq_refl I eq_refl).
Defined.

(** ** [Delete] *)

Lemma Delete_unfold (uri : string) (h : handle) :
  Delete uri h
  = match faults h with
    | Some msg :: _ =>
        (issued h DeleteRepo [ArgString uri], Err (ExecutionFailure msg))
    | _ =>
        ({| table := filter (fun r => negb (pg.citextEqb (dbRepo.URI r) uri))
                       (table h);
            faults := tl (faults h);
            journal := appendTo (journal h) (DeleteRepo, [ArgString uri]) |},
         Ok tt)
    end.
Proof.
  unfold Delete. rewrite Exec_unfold. cbn [pg.applyWrite].
  destruct (faults h) as [|[msg|] fs]; reflexivity.
Qed.

Lemma firstMatch_filter_out (uri : string) (rows : list dbRepo.t) :
  firstMatch uri (filter (fun r => negb (pg.citextEqb (dbRepo.URI r) uri)) rows)
  = None.
Proof.
  unfold firstMatch. induction rows as [|x l IH]; [reflexivity|].
  cbn [filter]. destruct (pg.citextEqb (dbRepo.URI x) uri) eqn:E; cbn [negb].
  - exact IH.
  - cbn [find]. rewrite E. exact IH.
Qed.

Lemma filter_out_absent (uri : string) (rows : list dbRepo.t) :
  firstMatch uri rows = None ->
  filter (fun r => negb (pg.citextEqb (dbRepo.URI r) uri)) rows = rows.
Proof.
  unfold firstMatch. induction rows as [|x l IH]; [reflexivity|].
  cbn [find filter]. destruct (pg.citextEqb (dbRepo.URI x) uri); [discriminate|].
  intros F. cbn [negb]. now rewrite IH.
Qed.

(** X6.  [Delete] issues the one statement
    [DELETE FROM repo WHERE uri=$1;] with the identifier as its
    argument.  Unless the handle fails, it succeeds whether or not a
    row has the identifier: it removes the rows of that identifier
    (compared without regard to case) and no other, so that it leaves
    a table without the identifier as it is, a later [Get] of the
    identifier reports not found, and a second [Delete] changes
    nothing. *)
Theorem delete_outcome (uri : string) (h : handle) :
  ready h ->
  issuedDuring (Delete uri) h = [(DeleteRepo, [ArgString uri])]
  /\ sqlText DeleteRepo = Some "DELETE FROM repo WHERE uri=$1;"
  /\ snd (Delete uri h) = Ok tt
  /\ table (fst (Delete uri h))
     = filter (fun r => negb (pg.citextEqb (dbRepo.URI r) uri)) (table h)
  /\ (firstMatch uri (table h) = None -> table (fst (Delete uri h)) = table h)
  /\ (ready (fst (Delete uri h)) ->
      snd (Get uri (fst (Delete uri h))) = Err (RepoNotFoundError uri)
      /\ snd (Delete uri (fst (Delete uri h))) = Ok tt
      /\ table (fst (Delete uri (fst (Delete uri h))))
         = table (fst (Delete uri h))).
Proof.
  intros R. unfold ready in *.
  assert (D : Delete uri h
              = ({| table := filter (fun r => negb (pg.citextEqb (dbRepo.URI r) uri))
                               (table h);
                    faults := tl (faults h);
                    journal := appendTo (journal h) (DeleteRepo, [ArgString uri]) |},
                 Ok tt)).
  { rewrite Delete_unfold. destruct (faults h) as [|[msg|] fs];
      [reflexivity|contradiction|reflexivity]. }
  unfold issuedDuring. rewrite D. cbn [fst snd table faults journal].
  split; [unfold appendTo; apply skipn_app_length|].
  split; [reflexivity|].
  split; [reflexivity|]. split; [reflexivity|]. split.
  - apply filter_out_absent.
  - intros R1. rewrite Get_unfold, Delete_unfold. cbn [fst snd table faults].
    rewrite firstMatch_filter_out.
    destruct (tl (faults h)) as [|[msg|] fs]; try contradiction;
      (split; [reflexivity|]); (split; [reflexivity|]); cbn [fst table];
      apply filter_out_absent, firstMatch_filter_out.
Qed.

Lemma delete_outcome_witness :
  ready (handleOn [rowOf "acme/widgets" "widgets" false; rowOf "a/b" "b" false])
  /\ table (fst (Delete "Acme/Widgets"
                   (handleOn [rowOf "acme/widgets" "widgets" false;
                              rowOf "a/b" "b" false])))
     = [rowOf "a/b" "b" false].
Proof.
  split; [exact I|].
  exact (proj1 (proj2 (proj2 (proj2 (delete_outcome "Acme/Widgets"
            (handleOn [rowOf "acme/widgets" "widgets" false; rowOf "a/b" "b" false])
            I))))).
Defined.

(** ** Identifiers stay unique *)

Lemma firstMatch_none_not_in (uri : string) (rows : list dbRepo.t) :
  firstMatch uri rows = None ->
  ~ In (pg.lower uri) (map (fun r => pg.lower (dbRepo.URI r)) rows).
Proof.
  unfold firstMatch. intros F H. apply in_map_iff in H as (r & E & Hr).
  pose proof (find_none _ _ F r Hr) as N. cbn beta in N.
  unfold pg.citextEqb in N. rewrite E, String.eqb_refl in N. discriminate.
Qed.

Lemma uniqueURIs_snoc (rows : list dbRepo.t) (r : dbRepo.t) :
  uniqueURIs rows -> firstMatch (dbRepo.URI r) rows = None ->
  uniqueURIs (rows ++ [r]).
Proof.
  unfold uniqueURIs. intros U F. apply firstMatch_none_not_in in F.
  induction rows as [|x l IH]; cbn [map app] in *.
  - constructor; [intros []|constructor].
  - inversion U as [|? ? Hx Hl]; subst. constructor.
    + rewrite map_app, in_app_iff. cbn [map In]. intros [H|[H|[]]].
      * now apply Hx.
      * apply F. left. now symmetry.
    + apply IH; [exact Hl|]. intros H. apply F. now right.
Qed.

Lemma uniqueURIs_filter (p : dbRepo.t -> bool) (rows : list dbRepo.t) :
  uniqueURIs rows -> uniqueURIs (filter p rows).
Proof.
  unfold uniqueURIs. induction rows as [|x l IH]; [trivial|].
  cbn [map filter]. intros U. inversion U as [|? ? Hx Hl]; subst.
  destruct (p x); [|now apply IH].
  cbn [map]. constructor; [|now apply IH].
  intros H. apply Hx. apply in_map_iff in H as (r & E & Hr).
  apply in_map_iff. exists r. split; [exact E|].
  now apply filter_In in Hr as [Hr _].
Qed.

Lemma preserves_update_uri (c : updColumn) (args : list sqlarg) :
  preserves dbRepo.URI (UpdateRepo c, args).
Proof.
  intros rows rows'. cbn [fst snd pg.applyWrite].
  destruct args as [|a [|[uri| |] [|]]]; try discriminate.
  destruct c, a; try discriminate;
    intros E; injection E as <-; rewrite map_map; apply map_ext; intros r;
    destruct (pg.citextEqb _ _); reflexivity.
Qed.

Lemma updateStatements_updates (op : RepoUpdate.t) :
  Forall (fun e => exists c a, e = (UpdateRepo c, [a; ArgString (RepoUpdate.URI op)]))
    (updateStatements op).
Proof.
  unfold updateStatements.
  destruct (RepoUpdate.Description op =? "");
  destruct (RepoUpdate.Language op =? "");
  destruct (RepoUpdate.UpdatedAt op);
  destruct (RepoUpdate.PushedAt op);
  repeat constructor; eexists; eexists; reflexivity.
Qed.

Lemma Update_URIs (op : RepoUpdate.t) (h : handle) :
  map dbRepo.URI (table (fst (Update op h))) = map dbRepo.URI (table h).
Proof.
  rewrite Update_execAll. apply execAll_preserves.
  eapply Forall_impl; [|apply updateStatements_updates].
  intros e (c & a & ->). apply preserves_update_uri.
Qed.

(** X7.  The identifier is a key, and it stays one: when no two rows
    of the table have the same identifier (up to case), the same holds
    after [Create], after [Update] and after [Delete], whatever their
    outcome.  In particular [Create] refuses an identifier that a row
    already has, in any case of letters. *)
Theorem identifiers_stay_unique (h : handle) :
  uniqueURIs (table h) ->
  (forall newRepo, uniqueURIs (table (fst (Create newRepo h))))
  /\ (forall op, uniqueURIs (table (fst (Update op h))))
  /\ (forall uri, uniqueURIs (table (fst (Delete uri h))))
  /\ (forall newRepo r,
        firstMatch (Repo.URI newRepo) (table h) = Some r ->
        exists e, snd (Create newRepo h) = Err e).
Proof.
  intros U. split; [|split; [|split]].
  - intros newRepo. rewrite Create_unfold.
    destruct (negb _); [exact U|]. destruct (_ && _); [exact U|].
    destruct (faults h) as [|[msg|] fs]; try exact U;
      (destruct (firstMatch _ (table h)) eqn:F; [exact U|]);
      cbn [fst table]; apply uniqueURIs_snoc; try exact U;
      now rewrite createdRow_URI.
  - intros op. unfold uniqueURIs in *.
    rewrite <- (map_map dbRepo.URI pg.lower), Update_URIs, map_map. exact U.
  - intros uri. rewrite Delete_unfold.
    destruct (faults h) as [|[msg|] fs]; try exact U;
      cbn [fst table]; now apply uniqueURIs_filter.
  - intros newRepo r F. rewrite Create_unfold, F.
    destruct (negb _); [eexists; reflexivity|].
    destruct (_ && _); [eexists; reflexivity|].
    destruct (faults h) as [|[msg|] fs]; eexists; reflexivity.
Qed.

Lemma identifiers_stay_unique_witness :
  uniqueURIs (table (handleOn [rowOf "acme/widgets" "widgets" false]))
  /\ uniqueURIs (table (fst (Create (mirrorOf "acme/gears" "gears")
                               (handleOn [rowOf "acme/widgets" "widgets" false]))))
  /\ exists e,
       snd (Create (mirrorOf "Acme/Widgets" "widgets")
              (handleOn [rowOf "acme/widgets" "widgets" false])) = Err e.
Proof.
  assert (U : uniqueURIs (table (handleOn [rowOf "acme/widgets" "widgets" false]))).
  { repeat constructor. intros []. }
  destruct (identifiers_stay_unique _ U) as (C & _ & _ & E).
  split; [exact U|]. split; [apply C|].
  apply (E (mirrorOf "Acme/Widgets" "widgets") (rowOf "acme/widgets" "widgets" false)).
  reflexivity.
Defined.

(** ** What [Update] leaves alone *)

Lemma preserves_outside (op : RepoUpdate.t) (c : updColumn) (a : sqlarg) :
  preserves (outsideUpdate op) (UpdateRepo c, [a; ArgString (RepoUpdate.URI op)]).
Proof.
  intros rows rows'. cbn [fst snd pg.applyWrite].
  destruct c, a; try discriminate;
    intros E; injection E as <-; rewrite map_map; apply map_ext; intros r;
    unfold outsideUpdate;
    destruct (pg.citextEqb (dbRepo.URI r) (RepoUpdate.URI op)) eqn:C;
    cbn [pg.withDescription pg.withLanguage pg.withUpdatedAt pg.withPushedAt
         dbRepo.URI];
    rewrite C; reflexivity.
Qed.

(** X8.  [Update] writes nothing but the description, the language
    and the two timestamps of the rows of its identifier: whatever the
    operation and whatever the handle does (failures half-way
    included), every row of another identifier is as before, and the
    rows of the identifier keep every other column; the rows, their
    number, their order and their identifiers are as before. *)
Theorem update_scope (op : RepoUpdate.t) (h : handle) :
  map (outsideUpdate op) (table (fst (Update op h)))
  = map (outsideUpdate op) (table h)
  /\ map dbRepo.URI (table (fst (Update op h))) = map dbRepo.URI (table h)
  /\ List.length (table (fst (Update op h))) = List.length (table h).
Proof.
  split; [|split].
  - rewrite Update_execAll. apply execAll_preserves.
    eapply Forall_impl; [|apply updateStatements_updates].
    intros e (c & a & ->). apply preserves_outside.
  - apply Update_URIs.
  - rewrite <- (length_map dbRepo.URI), Update_URIs. apply length_map.
Qed.

(** ** [Update] on a handle that does not fail *)












(** ** [List] reads, and its errors *)

(** X12.  [List] never writes: the table is as before, and at most one
    statement is issued.  Its only errors are [InvalidArgument], raised
    before any statement is issued (the handle is then as before), and
    the failures of the handle; the sentinel of the builder for options
    that specify an empty result never leaves [List]. *)
Theorem list_read_only (D : Z) (o : option RepoListOptions.t) (h : handle) :
  table (fst (List D o h)) = table h
  /\ (List.length (issuedDuring (List D o) h) <= 1)%nat
  /\ match snd (List D o h) with
     | Ok _ => True
     | Err (InvalidArgument _) => fst (List D o h) = h
     | Err (ExecutionFailure _) => issuedDuring (List D o) h <> []
     | Err _ => False
     end.
Proof.
  unfold issuedDuring. rewrite List_unfold.
  pose proof (listQuery_outcome (optOrZero o)) as O.
  destruct (listQuery (optOrZero o)) as [[q args]|e].
  - cbv zeta. cbn [fst snd issued table journal]. unfold appendTo.
    rewrite skipn_app_length. split; [reflexivity|]. split; [cbn; lia|].
    destruct (faults h) as [|[msg|] fs]; try discriminate;
      destruct (pg.selectBound _ _); try exact I; discriminate.
  - assert (J : skipn (List.length (journal h)) (journal h) = []).
    { apply skipn_all. }
    destruct e; try contradiction; cbn [fst snd]; rewrite J;
      (split; [reflexivity|]); (split; [cbn; lia|]); auto.
Qed.

(** ** Placeholders and arguments *)

Lemma Fields_head (s : string) :
  match strings.Fields s with
  | [] => True
  | w :: _ => w <> ""
  end.
Proof.
  induction s as [|c s IH]; [exact I|]. cbn [strings.Fields].
  destruct (strings.isSpace c); [exact IH|].
  destruct s as [|c' s']; [discriminate|].
  destruct (strings.isSpace c'); [discriminate|].
  destruct (strings.Fields (String c' s')); discriminate.
Qed.

Lemma probe_empty (query : string) :
  (strings.ToLower (strings.Join (strings.Fields query) "/") =? "")
  = negb (1 <=? List.length (strings.Fields query))%nat.
Proof.
  pose proof (Fields_head query) as H.
  destruct (strings.Fields query) as [|w ws]; [reflexivity|].
  destruct w as [|c w]; [congruence|].
  unfold strings.Join. cbn [String.concat List.length Nat.leb negb].
  destruct ws; reflexivity.
Qed.

Ltac cases_listQuery opt :=
  destruct (RepoListOptions.Type_ opt =? "private");
  [ | destruct (RepoListOptions.Type_ opt =? "public");
      [ | destruct ((RepoListOptions.Type_ opt =? "")
                    || (RepoListOptions.Type_ opt =? "all")) ] ];
  destruct (RepoListOptions.NoFork opt);
  destruct (RepoListOptions.URIs opt) as [|u0 us0];
  destruct (RepoListOptions.Name opt =? "");
  destruct (1 <=? List.length (strings.Fields (RepoListOptions.Query opt)))%nat
    eqn:HF;
  cbn [bind negb Nat.ltb Nat.leb List.length];
  try discriminate;
  (destruct (negb (RepoListOptions.Owner opt =? "")); [discriminate|]);
  rewrite ?ToLower_idem, probe_empty, HF; cbn [negb];
  (destruct (lookup sortKeyToColumn _); [|discriminate]);
  (destruct (negb _ && negb _); [discriminate|]).

(** X13.  The closure [arg] numbers the placeholders as it binds the
    arguments: in the statement that [listSQL] builds, and in the one
    [List] issues with the page appended, the placeholders read in the
    order of the text are [$1], [$2], ... up to the number of
    arguments, each once; no argument is left without a placeholder
    and no placeholder without an argument. *)
Theorem placeholders_in_sequence (D : Z) (opt : RepoListOptions.t)
  (q : selectStmt) (args : list sqlarg) :
  listQuery opt = Ok (q, args) ->
  selectVars q = seq 0 (List.length args)
  /\ selectVars (pagedQuery q args)
     = seq 0 (List.length (pagedArgs D opt args)).
Proof.
  intros E.
  assert (P : sel_page q = None) by (now destruct (listQuery_order _ _ _ E) as (_ & _ & ?)).
  assert (S1 : selectVars q = seq 0 (List.length args)).
  { revert E. unfold listQuery. cbv zeta.
    set (uris := effectiveURIs (RepoListOptions.URIs opt)).
    cases_listQuery opt;
    intros H; injection H as <- <-;
    unfold selectVars, appendTo;
    cbn [sel_where sel_tiebreak sel_page app flat_map condVars];
    repeat rewrite length_app; rewrite ?length_map; cbn [List.length];
    rewrite ?app_nil_r; rewrite ?seq_app; cbn [seq Nat.add app];
    rewrite <- ?app_assoc; cbn [app];
    rewrite ?Nat.add_0_r, ?Nat.add_succ_r, ?Nat.add_0_r;
    reflexivity. }
  split; [exact S1|].
  unfold selectVars in *. unfold pagedQuery, withPage, pagedArgs.
  cbn [sel_where sel_tiebreak sel_page]. rewrite P, app_nil_r in S1.
  rewrite app_assoc, S1, length_app, seq_app. reflexivity.
Qed.

Lemma placeholders_in_sequence_witness :
  exists q args,
    listQuery (optQuery "foo bar") = Ok (q, args)
    /\ selectVars (pagedQuery q args) = [0; 1; 2; 3; 4; 5; 6]%nat.
Proof.
  eexists. eexists. split; [reflexivity|].
  exact (proj2 (placeholders_in_sequence 10 (optQuery "foo bar") _ _ eq_refl)).
Defined.

(** ** The free-text query in the statement *)




(** ** The text and the shape of the options *)






(** ** The other filters of [List] *)




(** ** When [List] succeeds, and with what *)

Lemma List_ready (D : Z) (o : option RepoListOptions.t) (h : handle) :
  ready h ->
  snd (List D o h) = snd (List D o (handleOn (table h))).
Proof.
  unfold ready. intros R. rewrite !List_unfold.
  destruct (listQuery (optOrZero o)) as [[q args]|e].
  - cbv zeta. cbn [snd handleOn table faults].
    destruct (faults h) as [|[msg|] fs]; [reflexivity|contradiction|reflexivity].
  - destruct e; reflexivity.
Qed.

Lemma listQuery_valid (opt : RepoListOptions.t) :
  supportedType (RepoListOptions.Type_ opt) = true ->
  RepoListOptions.Owner opt = "" ->
  supportedSort (RepoListOptions.Sort opt) = true ->
  supportedDirection (RepoListOptions.Direction opt) = true ->
  exists q args, listQuery opt = Ok (q, args).
Proof.
  intros T W S Dr. pose proof (listQuery_outcome opt) as O.
  destruct (listQuery opt) as [[q args]|e]; [eauto|].
  destruct e; try contradiction.
  - destruct O as [[T' _]|[(_ & _ & S' & _)|(_ & _ & _ & Dr' & _)]]; congruence.
  - destruct O as [_ W']. contradiction.
Qed.

(** X17.  With supported option values and an empty owner, on a
    handle that does not fail and with a page size and an offset that
    are not negative, [List] succeeds: it issues one statement and
    returns at most a page of records. *)
Theorem list_succeeds (D : Z) (opt : RepoListOptions.t) (h : handle) :
  supportedType (RepoListOptions.Type_ opt) = true ->
  RepoListOptions.Owner opt = "" ->
  supportedSort (RepoListOptions.Sort opt) = true ->
  supportedDirection (RepoListOptions.Direction opt) = true ->
  (0 <= PerPageOrDefault D opt)%Z ->
  (0 <= Offset D opt)%Z ->
  ready h ->
  exists rs,
    snd (List D (Some opt) h) = Ok rs
    /\ (List.length rs <= Z.to_nat (PerPageOrDefault D opt))%nat
    /\ List.length (issuedDuring (List D (Some opt)) h) = 1%nat.
Proof.
  intros T W S Dr HL HO R.
  destruct (listQuery_valid opt T W S Dr) as (q & args & E).
  eexists. split; [|split].
  - rewrite (List_ready D (Some opt) h R).
    apply (List_run D opt (handleOn (table h)) q args HL HO eq_refl E).
  - unfold toRepos. rewrite length_map. apply firstn_le_length.
  - unfold issuedDuring. rewrite List_unfold. cbn [optOrZero]. rewrite E.
    cbv zeta. cbn [fst issued journal]. unfold appendTo.
    now rewrite skipn_app_length.
Qed.

Lemma list_succeeds_witness :
  ready (handleOn [rowOf "b/c" "c" false; rowOf "a/b" "b" false])
  /\ exists rs,
       snd (List 1 (Some (optSort "name" "desc"))
              (handleOn [rowOf "b/c" "c" false; rowOf "a/b" "b" false])) = Ok rs
       /\ (List.length rs <= 1)%nat.
Proof.
  split; [exact I|].
  destruct (list_succeeds 1 (optSort "name" "desc")
              (handleOn [rowOf "b/c" "c" false; rowOf "a/b" "b" false])
              eq_refl eq_refl eq_refl eq_refl ltac:(discriminate)
              ltac:(discriminate) I)
    as (rs & E & L & _).
  exists rs. split; [exact E | exact L].
Defined.



(** ** Absent timestamps come last *)

Lemma probe_no_terms (opt : RepoListOptions.t) :
  strings.Fields (RepoListOptions.Query opt) = [] -> probe opt = "".
Proof. unfold probe. now intros ->. Qed.

Lemma rowLeb_nulls_last (q : selectStmt) (args : list sqlarg) (x y : dbRepo.t) :
  sel_tiebreak q = None ->
  pg.rowLeb q args x y = true ->
  (sel_sort q = ColUpdatedAt ->
   dbRepo.UpdatedAt x = None -> dbRepo.UpdatedAt y = None)
  /\ (sel_sort q = ColPushedAt ->
      dbRepo.PushedAt x = None -> dbRepo.PushedAt y = None).
Proof.
  unfold pg.rowLeb, pg.rowCompare. intros -> L. split; intros C N;
    rewrite C in L; cbn [pg.columnCompare] in L; rewrite N in L.
  - destruct (dbRepo.UpdatedAt y); [discriminate L | reflexivity].
  - destruct (dbRepo.PushedAt y); [discriminate L | reflexivity].
Qed.

(** X19.  [NULLS LAST] holds in both directions: without a free-text
    query, when [List] sorts by the time of update (or of push), a
    record without that time is followed only by records without it,
    whether the direction is ascending or descending. *)
Theorem list_nulls_last (D : Z) (opt : RepoListOptions.t) (h : handle) :
  strings.Fields (RepoListOptions.Query opt) = [] ->
  (RepoListOptions.Sort opt = "updated" ->
   Sorted (fun a b => Repo.UpdatedAt a = None -> Repo.UpdatedAt b = None)
     (listed D (Some opt) h))
  /\ (RepoListOptions.Sort opt = "pushed" ->
      Sorted (fun a b => Repo.PushedAt a = None -> Repo.PushedAt b = None)
        (listed D (Some opt) h)).
Proof.
  intros HF.
  destruct (listed_cases D (Some opt) h) as [->|(q & args & E & ->)];
    [split; constructor|].
  cbn [optOrZero] in *.
  assert (Tb : sel_tiebreak (pagedQuery q args) = None).
  { destruct (listQuery_bound opt q args [] E) as [_ B].
    cbn [pagedQuery withPage sel_tiebreak].
    destruct (sel_tiebreak q); [|reflexivity].
    destruct B as [B _]. now apply probe_no_terms in HF. }
  destruct (listQuery_order opt q args E) as (Hc & _).
  split; intros Hs; rewrite Hs in Hc; cbn in Hc; injection Hc as Hc;
    (eapply Sorted_map; [|apply selectRows_sorted]);
    intros a b L;
    destruct (rowLeb_nulls_last _ _ a b Tb L) as [U P];
    cbn [toRepo Repo.UpdatedAt Repo.PushedAt];
    intros N.
  - rewrite (U (eq_sym Hc)); [reflexivity|].
    destruct (dbRepo.UpdatedAt a); [discriminate N | reflexivity].
  - rewrite (P (eq_sym Hc)); [reflexivity|].
    destruct (dbRepo.PushedAt a); [discriminate N | reflexivity].
Qed.

Lemma list_nulls_last_witness :
  strings.Fields (RepoListOptions.Query (optSort "updated" "desc")) = []
  /\ listed 10 (Some (optSort "updated" "desc"))
       (handleOn [rowUpdatedAt "a" None;
                  rowUpdatedAt "b" (Some (time.Unix 10 0));
                  rowUpdatedAt "c" (Some (time.Unix 20 0))])
     = [toRepo (rowUpdatedAt "c" (Some (time.Unix 20 0)));
        toRepo (rowUpdatedAt "b" (Some (time.Unix 10 0)));
        toRepo (rowUpdatedAt "a" None)]
  /\ Sorted (fun a b => Repo.UpdatedAt a = None -> Repo.UpdatedAt b = None)
       (listed 10 (Some (optSort "updated" "desc"))
          (handleOn [rowUpdatedAt "a" None;
                     rowUpdatedAt "b" (Some (time.Unix 10 0));
                     rowUpdatedAt "c" (Some (time.Unix 20 0))])).
Proof.
  split; [reflexivity|]. split; [reflexivity|].
  exact (proj1 (list_nulls_last 10 (optSort "updated" "desc")
                  (handleOn [rowUpdatedAt "a" None;
                             rowUpdatedAt "b" (Some (time.Unix 10 0));
                             rowUpdatedAt "c" (Some (time.Unix 20 0))])
                  eq_refl) eq_refl).
Defined.

(** ** Blocked records and [Get] *)

Lemma uniqueURIs_same (rows : list dbRepo.t) (a b : dbRepo.t) :
  uniqueURIs rows -> In a rows -> In b rows ->
  pg.citextEqb (dbRepo.URI a) (dbRepo.URI b) = true -> a = b.
Proof.
  unfold uniqueURIs, pg.citextEqb. intros U Ha Hb E. apply String.eqb_eq in E.
  induction rows as [|x l IH]; [contradiction|].
  cbn [map] in U. inversion U as [|? ? Hx Hl]; subst.
  destruct Ha as [->|Ha], Hb as [->|Hb]; auto.
  - exfalso. apply Hx. rewrite E. now apply (in_map (fun r => pg.lower (dbRepo.URI r))).
  - exfalso. apply Hx. rewrite <- E.
    now apply (in_map (fun r => pg.lower (dbRepo.URI r))).
Qed.

(** X20.  [Get] does not look at the blocked flag, [List] does: a
    blocked record is returned by [Get] of its identifier, and, the
    identifiers being unique, no record of that identifier is ever
    returned by [List]. *)
Theorem blocked_get_not_list (h : handle) (uri : string) (r : dbRepo.t) :
  ready h ->
  firstMatch uri (table h) = Some r ->
  dbRepo.Blocked r = true ->
  snd (Get uri h) = Ok (toRepo r)
  /\ Repo.Blocked (toRepo r) = true
  /\ (uniqueURIs (table h) ->
      forall D o rec, In rec (listed D o h) ->
        pg.citextEqb (Repo.URI rec) uri = false).
Proof.
  intros R F B. split; [|split; [exact B|]].
  - rewrite Get_unfold, F. cbn [snd]. unfold ready in R.
    destruct (faults h) as [|[msg|] fs]; [reflexivity|contradiction|reflexivity].
  - intros U D o rec H.
    apply listed_In in H as (q & args & row & _ & Hr & -> & A).
    cbn [toRepo Repo.URI]. apply admits_not_blocked in A.
    destruct (pg.citextEqb (dbRepo.URI row) uri) eqn:C; [|reflexivity].
    unfold firstMatch in F. apply find_some in F as [Fr Fc].
    assert (E : row = r).
    { apply (uniqueURIs_same (table h)); try assumption.
      now rewrite (citextEqb_trans_l _ _ _ C), citextEqb_sym. }
    subst row. congruence.
Qed.

Lemma blocked_get_not_list_witness :
  ready (handleOn [rowOf "x/y" "y" true; rowOf "a/b" "b" false])
  /\ snd (Get "X/Y" (handleOn [rowOf "x/y" "y" true; rowOf "a/b" "b" false]))
     = Ok (toRepo (rowOf "x/y" "y" true))
  /\ listed 10 None (handleOn [rowOf "x/y" "y" true; rowOf "a/b" "b" false])
     = [toRepo (rowOf "a/b" "b" false)].
Proof.
  split; [exact I|]. split; [|reflexivity].
  exact (proj1 (blocked_get_not_list
                  (handleOn [rowOf "x/y" "y" true; rowOf "a/b" "b" false])
                  "X/Y" (rowOf "x/y" "y" true) I eq_refl eq_refl)).
Defined.

(** ** A lone identifier that holds a comma *)

Lemma HasPrefix_comma (c : ascii) (s s' : string) :
  strings.HasPrefix (String c s) "," = strings.HasPrefix (String c s') ",".
Proof.
  unfold strings.HasPrefix. cbn [String.prefix].
  destruct (ascii_dec "," c); [|reflexivity].
  destruct s, s'; reflexivity.
Qed.

Lemma Split_no_comma (s : string) :
  Forall (fun p => strings.Contains p "," = false) (strings.Split s ",").
Proof.
  unfold strings.Split. induction s as [|c s IH]; [repeat constructor|].
  cbn [strings.splitFrom String.length Nat.sub].
  destruct (strings.HasPrefix (String c s) ",") eqn:P.
  - constructor; [reflexivity | exact IH].
  - destruct (strings.splitFrom 0 s ",") as [|w ws].
    + repeat constructor. cbn [strings.Contains].
      rewrite (HasPrefix_comma c "" s), P. reflexivity.
    + inversion IH as [|? ? Hw Hws]; subst. constructor; [|exact Hws].
      cbn [strings.Contains]. now rewrite (HasPrefix_comma c w s), P, Hw.
Qed.

Lemma HasPrefix_comma_lower (c : ascii) (s s' : string) :
  strings.HasPrefix (String (strings.toLowerByte c) s) ","
  = strings.HasPrefix (String c s') ",".
Proof.
  unfold strings.HasPrefix. cbn [String.prefix].
  destruct (ascii_dec "," c) as [<-|N]; [destruct s, s'; reflexivity|].
  destruct (ascii_dec "," (strings.toLowerByte c)) as [E|]; [|reflexivity].
  exfalso. apply N. revert E.
  destruct c as [[] [] [] [] [] [] [] []]; cbn; intros E;
    first [reflexivity | discriminate E].
Qed.

Lemma Contains_comma_lower (s : string) :
  strings.Contains (strings.ToLower s) "," = strings.Contains s ",".
Proof.
  induction s as [|c s IH]; [reflexivity|].
  cbn [strings.ToLower strings.Contains].
  now rewrite (HasPrefix_comma_lower c _ s), IH.
Qed.

(** X21.  The comma workaround has a blind spot: given alone, an
    identifier that holds a comma is split, so [List] returns no
    record whose identifier holds a comma; the record of that very
    identifier cannot be listed by it. *)
Theorem lone_identifier_with_comma (D : Z) (opt : RepoListOptions.t)
  (u : string) (h : handle) (rec : Repo.t) :
  RepoListOptions.URIs opt = [u] ->
  strings.Contains u "," = true ->
  In rec (listed D (Some opt) h) ->
  strings.Contains (Repo.URI rec) "," = false.
Proof.
  intros HU HC H.
  apply listed_In in H as (q & args & row & _ & _ & -> & A).
  cbn [optOrZero] in A. cbn [toRepo Repo.URI].
  apply admits_uris in A; [|rewrite HU; discriminate].
  rewrite HU in A. unfold effectiveURIs in A.
  cbn [List.length Nat.eqb nth andb] in A. rewrite HC in A.
  apply existsb_exists in A as (p & Hp & E).
  pose proof (Split_no_comma u) as F. rewrite Forall_forall in F.
  specialize (F p Hp). unfold pg.citextEqb, pg.lower in E.
  apply String.eqb_eq in E.
  now rewrite <- Contains_comma_lower, E, Contains_comma_lower.
Qed.

Lemma lone_identifier_with_comma_witness :
  strings.Contains "a,b" "," = true
  /\ listed 10 (Some (optURIs ["a,b"]))
       (handleOn [rowOf "a,b" "ab" false; rowOf "a" "a" false])
     = [toRepo (rowOf "a" "a" false)]
  /\ strings.Contains (Repo.URI (toRepo (rowOf "a" "a" false))) "," = false.
Proof.
  split; [reflexivity|]. split; [reflexivity|].
  apply (lone_identifier_with_comma 10 (optURIs ["a,b"]) "a,b"
           (handleOn [rowOf "a,b" "ab" false; rowOf "a" "a" false]));
    [reflexivity | reflexivity | left; reflexivity].
Defined.

(** ** The query reaches the statement through the probe *)




(** ** No record twice *)

Lemma NoDup_firstn {A : Type} (n : nat) (l : list A) :
  NoDup l -> NoDup (firstn n l).
Proof.
  intros H. rewrite <- (firstn_skipn n l) in H. now apply NoDup_app_remove_r in H.
Qed.

Lemma NoDup_skipn {A : Type} (n : nat) (l : list A) :
  NoDup l -> NoDup (skipn n l).
Proof.
  intros H. rewrite <- (firstn_skipn n l) in H. now apply NoDup_app_remove_l in H.
Qed.

Lemma uniqueURIs_selectRows (rows : list dbRepo.t) (q : selectStmt)
  (args : list sqlarg) :
  uniqueURIs rows -> uniqueURIs (pg.selectRows rows q args).
Proof.
  intros U. unfold pg.selectRows.
  assert (S : uniqueURIs (pg.sortBy (pg.rowLeb q args)
                            (filter (pg.whereHolds args (sel_where q)) rows))).
  { unfold uniqueURIs.
    eapply Permutation_NoDup;
      [apply Permutation_map, sortBy_perm | now apply uniqueURIs_filter]. }
  destruct (sel_page q) as [[l o]|]; [|exact S].
  unfold uniqueURIs in *. rewrite <- firstn_map, <- skipn_map.
  now apply NoDup_firstn, NoDup_skipn.
Qed.

(** X23.  When the identifiers of the table are unique, [List] returns
    no record twice: the identifiers of the records it returns are
    pairwise distinct, up to case. *)
Theorem list_no_duplicates (D : Z) (o : option RepoListOptions.t) (h : handle) :
  uniqueURIs (table h) ->
  NoDup (map (fun rec => pg.lower (Repo.URI rec)) (listed D o h)).
Proof.
  intros U.
  destruct (listed_cases D o h) as [->|(q & args & _ & ->)]; [constructor|].
  unfold toRepos. rewrite map_map. cbn [toRepo Repo.URI].
  now apply uniqueURIs_selectRows.
Qed.

Lemma list_no_duplicates_witness :
  uniqueURIs (table (handleOn [rowOf "b/c" "c" false; rowOf "a/b" "b" false]))
  /\ NoDup (map (fun rec => pg.lower (Repo.URI rec))
              (listed 10 None
                 (handleOn [rowOf "b/c" "c" false; rowOf "a/b" "b" false]))).
Proof.
  assert (U : uniqueURIs
                (table (handleOn [rowOf "b/c" "c" false; rowOf "a/b" "b" false]))).
  { unfold uniqueURIs. cbn. constructor.
    - intros [E|[]]. discriminate E.
    - repeat constructor. intros []. }
  split; [exact U|].
  exact (list_no_duplicates 10 None _ U).
Defined.
